(** * simple-idb: the promise adapter over the host storage engine

    A shallow embedding of [src/index.ts] (class [SimpleIDB]) together with
    the engine double of the repository's test suite, and the properties of
    the adapter: the order of its precondition checks, the scoping of the
    upgrade transaction, idempotent schema declarations, and the shape of
    the engine traffic each data operation produces.

    The host engine (IndexedDB) is not part of the repository.  It enters
    the development as a record of operations over an abstract engine state
    ([Engine]); the adapter is written once against that record.  The test
    double of the suite is one instance of it. *)

From Stdlib Require Import ZArith.
From stdpp Require Import base option list strings gmap.

Local Open Scope string_scope.
Local Open Scope Z_scope.
Local Open Scope list_scope.

(** ** Data of [index.ts] *)

(** [interface StoreOptions { keyPath?: string; autoIncrement?: boolean }] *)
Record StoreOptions := {
  keyPath : option string;
  autoIncrement : option bool
}.

(** [interface IndexOptions { unique?: boolean; multiEntry?: boolean }] *)
Record IndexOptions := {
  unique : option bool;
  multiEntry : option bool
}.

(** The mode argument of [IDBDatabase.transaction]. *)
Inductive Mode := readonly | readwrite.

(** Every [throw new Error(...)] / [reject(new Error(...))] site of the
    class, one constructor per site, named after the error kinds of the
    specification.  [EngineException] is an exception thrown synchronously
    by an engine call: the adapter never catches one, so it reaches the
    caller unwrapped.  [CallbackException] is an exception raised by the
    caller's own code inside an upgrade callback. *)
Inductive Error :=
  | UnsupportedEnvironment
  | NotOpen
  | OpenFailed (msg : string)
  | StoreNotFound (storeName : string)
  | IndexCreationOutsideUpgrade
  | AddFailed (msg : string)
  | GetFailed (msg : string)
  | PutFailed (msg : string)
  | DeleteFailed (msg : string)
  | ClearFailed (msg : string)
  | GetAllFailed (msg : string)
  | CountFailed (msg : string)
  | EngineException (name : string)
  | CallbackException (what : string).

(** The double-quote character, which the not-found message puts around
    the store name. *)
Definition dquote : string := String (Ascii.ascii_of_nat 34) EmptyString.

(** The text carried by each error, as the source spells it. *)
Definition message (e : Error) : string :=
  match e with
  | UnsupportedEnvironment => "IndexedDB is not supported in this environment"
  | NotOpen => "Database not open. Call open() first."
  | OpenFailed msg => "Failed to open database: " +:+ msg
  | StoreNotFound storeName =>
      "Object store " +:+ dquote +:+ storeName +:+ dquote
        +:+ " does not exist. Create it first with createStore()."
  | IndexCreationOutsideUpgrade =>
      "createIndex must be called within the upgradeCallback during open(). Indexes can only be created during database upgrades."
  | AddFailed msg => "Failed to add record: " +:+ msg
  | GetFailed msg => "Failed to get record: " +:+ msg
  | PutFailed msg => "Failed to put record: " +:+ msg
  | DeleteFailed msg => "Failed to delete record: " +:+ msg
  | ClearFailed msg => "Failed to clear store: " +:+ msg
  | GetAllFailed msg => "Failed to get all records: " +:+ msg
  | CountFailed msg => "Failed to count records: " +:+ msg
  | EngineException name => name
  | CallbackException what => what
  end.

(** [request.error?.message || 'Unknown error']: an absent error, an absent
    message and the empty message all give the fallback. *)
Definition or_unknown (m : option string) : string :=
  match m with
  | Some (String c s) => String c s
  | _ => "Unknown error"
  end.

(** A call either returns or throws; for the [async] methods, returning is
    the promise resolving and throwing is the promise rejecting. *)
Inductive Result (A : Type) :=
  | Ok (a : A)
  | Throw (e : Error).
Arguments Ok {A} a.
Arguments Throw {A} e.

(** ** The engine boundary *)

(** The one request a data operation issues against a store accessor:
    [store.add(data)], [store.get(key)], [store.put(data)],
    [store.delete(key)], [store.clear()], [store.getAll()],
    [store.count()]. *)
Inductive Request (Value Key : Type) :=
  | ReqAdd (data : Value)
  | ReqGet (key : Key)
  | ReqPut (data : Value)
  | ReqDelete (key : Key)
  | ReqClear
  | ReqGetAll
  | ReqCount.
Arguments ReqAdd {Value Key} data.
Arguments ReqGet {Value Key} key.
Arguments ReqPut {Value Key} data.
Arguments ReqDelete {Value Key} key.
Arguments ReqClear {Value Key}.
Arguments ReqGetAll {Value Key}.
Arguments ReqCount {Value Key}.

(** What a request object delivers, exactly once: [onsuccess] with
    [request.result], or [onerror] with [request.error?.message]. *)
Inductive Completion (R : Type) :=
  | Succeeded (result : R)
  | Errored (error_message : option string).
Arguments Succeeded {R} result.
Arguments Errored {R} error_message.

(** A synchronous engine call returns ([inr]) or throws a DOM exception,
    of which the name is kept ([inl]). *)
Definition Exn : Type := string.

(** The host engine, as far as the class uses it.  [E] is the engine state;
    [DB], [TX], [OS] are the engine objects the class holds references to
    ([IDBDatabase], [IDBTransaction], [IDBObjectStore]); [Value] and [Key]
    are what callers pass in; [R] is the type of [request.result].
    [IDBDatabase.close()] and [objectStoreNames.contains] do not throw and
    the two [contains] queries leave the engine state alone. *)
Record Engine := {
  Value : Type;
  Key : Type;
  R : Type;
  DB : Type;
  TX : Type;
  OS : Type;
  E : Type;
  (* indexedDB.open(dbName, version) *)
  indexedDB_open : E → string → Z → (Exn + unit) * E;
  (* db.objectStoreNames.contains(storeName) *)
  objectStoreNames_contains : E → DB → string → bool;
  (* db.createObjectStore(storeName, { keyPath, autoIncrement }) *)
  db_createObjectStore : E → DB → string → option string → bool → (Exn + unit) * E;
  (* db.transaction(storeNames, mode) *)
  db_transaction : E → DB → list string → Mode → (Exn + TX) * E;
  (* db.close() *)
  db_close : E → DB → E;
  (* transaction.objectStore(storeName) *)
  tx_objectStore : E → TX → string → (Exn + OS) * E;
  (* objectStore.indexNames.contains(indexName) *)
  indexNames_contains : E → OS → string → Exn + bool;
  (* objectStore.createIndex(indexName, keyPath, { unique, multiEntry }) *)
  os_createIndex : E → OS → string → string → bool → bool → (Exn + unit) * E;
  (* store.add / get / put / delete / clear / getAll / count, with the
     notification the returned request later delivers *)
  os_request : E → OS → Request Value Key → (Exn + Completion R) * E
}.

(** Every call that crosses the boundary, in the order it is made. *)
Inductive Call (eng : Engine) :=
  | CallOpen (dbName : string) (version : Z)
  | CallContains (db : DB eng) (storeName : string)
  | CallCreateObjectStore (db : DB eng) (storeName : string)
      (key_path : option string) (auto_increment : bool)
  | CallTransaction (db : DB eng) (storeNames : list string) (mode : Mode)
  | CallClose (db : DB eng)
  | CallObjectStore (tx : TX eng) (storeName : string)
  | CallIndexContains (os : OS eng) (indexName : string)
  | CallCreateIndex (os : OS eng) (indexName key_path : string)
      (is_unique multi_entry : bool)
  | CallRequest (os : OS eng) (rq : Request (Value eng) (Key eng)).
Arguments CallOpen {eng} dbName version.
Arguments CallContains {eng} db storeName.
Arguments CallCreateObjectStore {eng} db storeName key_path auto_increment.
Arguments CallTransaction {eng} db storeNames mode.
Arguments CallClose {eng} db.
Arguments CallObjectStore {eng} tx storeName.
Arguments CallIndexContains {eng} os indexName.
Arguments CallCreateIndex {eng} os indexName key_path is_unique multi_entry.
Arguments CallRequest {eng} os rq.

(** ** The class [SimpleIDB] *)

(** The two private fields:
    [private db: IDBDatabase | null = null] and
    [private upgradeTransaction: IDBTransaction | null = null]. *)
Record SimpleIDB (eng : Engine) := {
  db : option (DB eng);
  upgradeTransaction : option (TX eng)
}.
Arguments db {eng} s.
Arguments upgradeTransaction {eng} s.

(** What a method call can read and change: the instance ([this]), the
    engine state ([host]), whether the global scope has [indexedDB]
    ([indexedDB_in_self]), and the boundary calls made so far. *)
Record World (eng : Engine) := {
  this : SimpleIDB eng;
  host : E eng;
  indexedDB_in_self : bool;
  calls : list (Call eng)
}.
Arguments this {eng} w.
Arguments host {eng} w.
Arguments indexedDB_in_self {eng} w.
Arguments calls {eng} w.

(** A method body: it runs on a world and returns or throws, leaving the
    world as it was at that point (a thrown exception undoes nothing). *)
Definition M (eng : Engine) (A : Type) : Type := World eng → Result A * World eng.

Definition ret {eng A} (a : A) : M eng A := λ w, (Ok a, w).
Definition throw {eng A} (e : Error) : M eng A := λ w, (Throw e, w).
Definition bind {eng A B} (m : M eng A) (k : A → M eng B) : M eng B := λ w,
  match m w with
  | (Ok a, w') => k a w'
  | (Throw e, w') => (Throw e, w')
  end.

Notation "x ←' m ; k" := (bind m (λ x, k))
  (at level 100, m at next level, right associativity, only parsing).
Notation "m ;;' k" := (bind m (λ _, k))
  (at level 100, right associativity, only parsing).

Section Adapter.
Context {eng : Engine}.

(** Reading and assigning the private fields. *)
Definition this_db : M eng (option (DB eng)) := λ w, (Ok (db (this w)), w).
Definition this_upgradeTransaction : M eng (option (TX eng)) :=
  λ w, (Ok (upgradeTransaction (this w)), w).
Definition set_db (d : option (DB eng)) : M eng unit := λ w,
  (Ok tt, {| this := {| db := d; upgradeTransaction := upgradeTransaction (this w) |};
             host := host w; indexedDB_in_self := indexedDB_in_self w;
             calls := calls w |}).
Definition set_upgradeTransaction (t : option (TX eng)) : M eng unit := λ w,
  (Ok tt, {| this := {| db := db (this w); upgradeTransaction := t |};
             host := host w; indexedDB_in_self := indexedDB_in_self w;
             calls := calls w |}).

(** A call across the boundary: it is recorded, the engine state moves,
    and an engine exception becomes a thrown [EngineException]. *)
Definition engine_call {A} (c : Call eng) (f : E eng → (Exn + A) * E eng) : M eng A :=
  λ w,
    let '(r, e') := f (host w) in
    let w' := {| this := this w; host := e'; indexedDB_in_self := indexedDB_in_self w;
                 calls := calls w ++ [c] |} in
    match r with
    | inl x => (Throw (EngineException x), w')
    | inr a => (Ok a, w')
    end.

(** The boundary calls of the class. *)
Definition call_open (dbName : string) (version : Z) : M eng unit :=
  engine_call (CallOpen dbName version) (λ e, indexedDB_open eng e dbName version).
Definition call_contains (d : DB eng) (storeName : string) : M eng bool :=
  engine_call (CallContains d storeName)
    (λ e, (inr (objectStoreNames_contains eng e d storeName), e)).
Definition call_createObjectStore (d : DB eng) (storeName : string)
    (key_path : option string) (auto_increment : bool) : M eng unit :=
  engine_call (CallCreateObjectStore d storeName key_path auto_increment)
    (λ e, db_createObjectStore eng e d storeName key_path auto_increment).
Definition call_transaction (d : DB eng) (storeNames : list string) (mode : Mode)
    : M eng (TX eng) :=
  engine_call (CallTransaction d storeNames mode)
    (λ e, db_transaction eng e d storeNames mode).
Definition call_close (d : DB eng) : M eng unit :=
  engine_call (CallClose d) (λ e, (inr tt, db_close eng e d)).
Definition call_objectStore (t : TX eng) (storeName : string) : M eng (OS eng) :=
  engine_call (CallObjectStore t storeName) (λ e, tx_objectStore eng e t storeName).
Definition call_indexContains (s : OS eng) (indexName : string) : M eng bool :=
  engine_call (CallIndexContains s indexName)
    (λ e, (indexNames_contains eng e s indexName, e)).
Definition call_createIndex (s : OS eng) (indexName key_path : string)
    (is_unique multi_entry : bool) : M eng unit :=
  engine_call (CallCreateIndex s indexName key_path is_unique multi_entry)
    (λ e, os_createIndex eng e s indexName key_path is_unique multi_entry).
Definition call_request (s : OS eng) (rq : Request (Value eng) (Key eng))
    : M eng (Completion (R eng)) :=
  engine_call (CallRequest s rq) (λ e, os_request eng e s rq).

(** [createStore(storeName, options?)], lines 42-53. *)
Definition createStore (storeName : string) (options : option StoreOptions) : M eng unit :=
  d ←' this_db;
  match d with
  | None => throw NotOpen
  | Some d =>
      exists_ ←' call_contains d storeName;
      if exists_ : bool then ret tt
      else
        call_createObjectStore d storeName
          (options ≫= keyPath)
          (default false (options ≫= autoIncrement))
  end.

(** [createIndex(storeName, indexName, keyPath, options?)], lines 55-79. *)
Definition createIndex (storeName indexName keyPath : string)
    (options : option IndexOptions) : M eng unit :=
  d ←' this_db;
  match d with
  | None => throw NotOpen
  | Some d =>
      exists_ ←' call_contains d storeName;
      if negb exists_ then throw (StoreNotFound storeName)
      else
        t ←' this_upgradeTransaction;
        objectStore ←' match t with
                       | Some t => call_objectStore t storeName
                       | None => throw IndexCreationOutsideUpgrade
                       end;
        has_index ←' call_indexContains objectStore indexName;
        if has_index : bool then ret tt
        else
          call_createIndex objectStore indexName keyPath
            (default false (options ≫= unique))
            (default false (options ≫= multiEntry))
  end.

(** The promise executor shared in shape by the seven data methods:
    [this.db!.transaction([storeName], mode)], then
    [transaction.objectStore(storeName)], then the one request, whose
    notification settles the promise. *)
Definition add (storeName : string) (data : Value eng) : M eng unit :=
  d ←' this_db;
  match d with
  | None => throw NotOpen
  | Some d =>
      transaction ←' call_transaction d [storeName] readwrite;
      store ←' call_objectStore transaction storeName;
      request ←' call_request store (ReqAdd data);
      match request with
      | Succeeded _ => ret tt
      | Errored m => throw (AddFailed (or_unknown m))
      end
  end.

Definition get (storeName : string) (key : Key eng) : M eng (R eng) :=
  d ←' this_db;
  match d with
  | None => throw NotOpen
  | Some d =>
      transaction ←' call_transaction d [storeName] readonly;
      store ←' call_objectStore transaction storeName;
      request ←' call_request store (ReqGet key);
      match request with
      | Succeeded result => ret result
      | Errored m => throw (GetFailed (or_unknown m))
      end
  end.

Definition put (storeName : string) (data : Value eng) : M eng unit :=
  d ←' this_db;
  match d with
  | None => throw NotOpen
  | Some d =>
      transaction ←' call_transaction d [storeName] readwrite;
      store ←' call_objectStore transaction storeName;
      request ←' call_request store (ReqPut data);
      match request with
      | Succeeded _ => ret tt
      | Errored m => throw (PutFailed (or_unknown m))
      end
  end.

Definition delete (storeName : string) (key : Key eng) : M eng unit :=
  d ←' this_db;
  match d with
  | None => throw NotOpen
  | Some d =>
      transaction ←' call_transaction d [storeName] readwrite;
      store ←' call_objectStore transaction storeName;
      request ←' call_request store (ReqDelete key);
      match request with
      | Succeeded _ => ret tt
      | Errored m => throw (DeleteFailed (or_unknown m))
      end
  end.

Definition clear (storeName : string) : M eng unit :=
  d ←' this_db;
  match d with
  | None => throw NotOpen
  | Some d =>
      transaction ←' call_transaction d [storeName] readwrite;
      store ←' call_objectStore transaction storeName;
      request ←' call_request store ReqClear;
      match request with
      | Succeeded _ => ret tt
      | Errored m => throw (ClearFailed (or_unknown m))
      end
  end.

Definition getAll (storeName : string) : M eng (R eng) :=
  d ←' this_db;
  match d with
  | None => throw NotOpen
  | Some d =>
      transaction ←' call_transaction d [storeName] readonly;
      store ←' call_objectStore transaction storeName;
      request ←' call_request store ReqGetAll;
      match request with
      | Succeeded result => ret result
      | Errored m => throw (GetAllFailed (or_unknown m))
      end
  end.

Definition count (storeName : string) : M eng (R eng) :=
  d ←' this_db;
  match d with
  | None => throw NotOpen
  | Some d =>
      transaction ←' call_transaction d [storeName] readonly;
      store ←' call_objectStore transaction storeName;
      request ←' call_request store ReqCount;
      match request with
      | Succeeded result => ret result
      | Errored m => throw (CountFailed (or_unknown m))
      end
  end.

(** [close()], lines 172-175: [this.db?.close(); this.db = null]. *)
Definition close : M eng unit :=
  d ←' this_db;
  match d with
  | Some d => call_close d
  | None => ret tt
  end ;;'
  set_db None.

(** *** [open] and the three handlers of its request *)

(** [type UpgradeCallback = (db: IDBDatabase) => void]: caller code that
    runs synchronously on the world and may throw. *)
Definition UpgradeCallback : Type := DB eng → M eng unit.

(** [open(dbName, version, upgradeCallback?)], lines 19-25, up to the
    point where the pending promise is returned: the capability check,
    then the one [indexedDB.open] call.  The handlers below are what the
    executor installs on the request. *)
Definition open (dbName : string) (version : Z) : M eng unit :=
  supported ←' (λ w, (Ok (indexedDB_in_self w), w));
  if negb supported then throw UnsupportedEnvironment
  else call_open dbName version.

(** [request.onerror], line 27: rejects with this error. *)
Definition onerror (error_message : option string) : Error :=
  OpenFailed (or_unknown error_message).

(** [request.onsuccess], lines 28-32; [resolve()] follows. *)
Definition onsuccess (result : DB eng) : M eng unit :=
  set_db (Some result) ;;'
  set_upgradeTransaction None.

(** [request.onupgradeneeded], lines 33-38. *)
Definition onupgradeneeded (upgradeCallback : option UpgradeCallback)
    (result : DB eng) (transaction : TX eng) : M eng unit :=
  set_db (Some result) ;;'
  set_upgradeTransaction (Some transaction) ;;'
  match upgradeCallback with
  | Some callback => callback result
  | None => ret tt
  end ;;'
  set_upgradeTransaction None.

(** *** Calls and notifications over time *)

(** The nine data and schema operations, as one type. *)
Inductive Operation :=
  | OpCreateStore (storeName : string) (options : option StoreOptions)
  | OpCreateIndex (storeName indexName keyPath : string) (options : option IndexOptions)
  | OpAdd (storeName : string) (data : Value eng)
  | OpGet (storeName : string) (key : Key eng)
  | OpPut (storeName : string) (data : Value eng)
  | OpDelete (storeName : string) (key : Key eng)
  | OpClear (storeName : string)
  | OpGetAll (storeName : string)
  | OpCount (storeName : string).

Definition void (m : M eng unit) : M eng (option (R eng)) := _ ←' m; ret None.
Definition value (m : M eng (R eng)) : M eng (option (R eng)) := r ←' m; ret (Some r).

(** Calling an operation; the value it resolves with, if it has one. *)
Definition invoke (op : Operation) : M eng (option (R eng)) :=
  match op with
  | OpCreateStore storeName options => void (createStore storeName options)
  | OpCreateIndex storeName indexName keyPath options =>
      void (createIndex storeName indexName keyPath options)
  | OpAdd storeName data => void (add storeName data)
  | OpGet storeName key => value (get storeName key)
  | OpPut storeName data => void (put storeName data)
  | OpDelete storeName key => void (delete storeName key)
  | OpClear storeName => void (clear storeName)
  | OpGetAll storeName => value (getAll storeName)
  | OpCount storeName => value (count storeName)
  end.

(** What the engine delivers to an open request. *)
Inductive Notification :=
  | NSuccess (result : DB eng)
  | NError (error_message : option string)
  | NUpgradeNeeded (result : DB eng) (transaction : TX eng).

(** One [open] call: the callback it was given, whether its handlers
    were installed (the executor ran past [indexedDB.open]), and how its
    promise has settled so far. *)
Record OpenCall := {
  upgradeCallback : option UpgradeCallback;
  listening : bool;
  settled : option (Result unit)
}.

(** A promise settles once: later [resolve]/[reject] calls do nothing. *)
Definition settle (r : Result unit) (o : OpenCall) : OpenCall :=
  match settled o with
  | Some _ => o
  | None => {| upgradeCallback := upgradeCallback o; listening := listening o;
               settled := Some r |}
  end.

(** The world, the open calls made so far, and the exceptions that
    escaped an event handler (nobody catches those). *)
Record Config := {
  world : World eng;
  opens : list OpenCall;
  uncaught : list Error
}.

(** What happens, one thing at a time: the caller calls [open], the
    engine notifies the request of the [request]-th open call, the caller
    calls an operation, the caller calls [close]. *)
Inductive Event :=
  | EvOpen (dbName : string) (version : Z) (callback : option UpgradeCallback)
  | EvNotify (request : nat) (n : Notification)
  | EvInvoke (op : Operation)
  | EvClose.

Definition notify (o : OpenCall) (n : Notification) (w : World eng)
    : OpenCall * World eng * list Error :=
  match n with
  | NSuccess result =>
      let '(_, w') := onsuccess result w in (settle (Ok tt) o, w', [])
  | NError m => (settle (Throw (onerror m)) o, w, [])
  | NUpgradeNeeded result transaction =>
      match onupgradeneeded (upgradeCallback o) result transaction w with
      | (Ok _, w') => (o, w', [])
      | (Throw e, w') => (o, w', [e])
      end
  end.

Definition step (c : Config) (ev : Event) : Config :=
  match ev with
  | EvOpen dbName version callback =>
      let '(r, w') := open dbName version (world c) in
      let o := match r with
               | Ok _ => {| upgradeCallback := callback; listening := true;
                            settled := None |}
               | Throw e => {| upgradeCallback := callback; listening := false;
                               settled := Some (Throw e) |}
               end in
      {| world := w'; opens := opens c ++ [o]; uncaught := uncaught c |}
  | EvNotify request n =>
      match opens c !! request with
      | Some o =>
          if listening o then
            let '(o', w', es) := notify o n (world c) in
            {| world := w'; opens := <[request := o']> (opens c);
               uncaught := uncaught c ++ es |}
          else c
      | None => c
      end
  | EvInvoke op =>
      {| world := (invoke op (world c)).2; opens := opens c; uncaught := uncaught c |}
  | EvClose =>
      {| world := (close (world c)).2; opens := opens c; uncaught := uncaught c |}
  end.

Definition run (c : Config) (evs : list Event) : Config := foldl step c evs.

(** A newly constructed instance on a given host. *)
Definition fresh (e : E eng) (supported : bool) : Config :=
  {| world := {| this := {| db := None; upgradeTransaction := None |};
                 host := e; indexedDB_in_self := supported; calls := [] |};
     opens := []; uncaught := [] |}.

(** Some open call has resolved. *)
Definition open_succeeded (c : Config) : Prop :=
  ∃ i o, opens c !! i = Some o ∧ settled o = Some (Ok tt).

(** The operation, called now, fails with this error. *)
Definition fails_with (w : World eng) (op : Operation) (e : Error) : Prop :=
  (invoke op w).1 = Throw e.

End Adapter.

Arguments UpgradeCallback eng : clear implicits.
Arguments Operation eng : clear implicits.
Arguments Notification eng : clear implicits.
Arguments OpenCall eng : clear implicits.
Arguments Config eng : clear implicits.
Arguments Event eng : clear implicits.

(** ** What the adapter relies on from the engine *)

Section Contract.
Context (eng : Engine).

(** One request in a transaction of its own, the way every data method
    drives the engine. *)
Definition run_request (e : E eng) (d : DB eng) (storeName : string) (mode : Mode)
    (rq : Request (Value eng) (Key eng)) : (Exn + Completion (R eng)) * E eng :=
  match db_transaction eng e d [storeName] mode with
  | (inl x, e1) => (inl x, e1)
  | (inr t, e1) =>
      match tx_objectStore eng e1 t storeName with
      | (inl x, e2) => (inl x, e2)
      | (inr s, e2) => os_request eng e2 s rq
      end
  end.

(** How the content of the stores is read off an engine state:
    [record_at e d s k] is the record store [s] holds under key [k];
    [key_of e d s v] is the key under which the engine would file record
    [v] in store [s] (from the key path of the store, or generated), if it
    would file it at all; [found v] is [request.result] for a [get] that
    finds [v]. *)
Record EngineView := {
  found : Value eng → R eng;
  key_of : E eng → DB eng → string → Value eng → option (Key eng);
  record_at : E eng → DB eng → string → Key eng → option (Value eng)
}.

(** The request [rq], issued against store [s'], may write the slot of
    key [k] in store [s]. *)
Definition writes (V : EngineView) (e : E eng) (d : DB eng) (s' : string)
    (rq : Request (Value eng) (Key eng)) (s : string) (k : Key eng) : Prop :=
  s' = s ∧
  match rq with
  | ReqAdd v | ReqPut v => key_of V e d s v = Some k
  | ReqDelete k' => k' = k
  | ReqClear => True
  | ReqGet _ | ReqGetAll | ReqCount => False
  end.

(** The engine behaviour the properties below depend on.  Schema: a
    declared store is reported by [contains]; fetching a store accessor and
    declaring an index remove no store; inside one transaction an index
    that was seen, or was just declared, through the accessor of a store is
    seen through an accessor fetched again, and fetching again changes
    nothing.  Data: [get] in a read-only transaction returns the record
    held under the key; a [put] that succeeds in a read-write transaction
    files the record under its key; a request touches no slot other than
    those it writes, and removes no store. *)
Record EngineContract (V : EngineView) : Prop := {
  createObjectStore_declares e d s kp ai e' :
    db_createObjectStore eng e d s kp ai = (inr tt, e') →
    objectStoreNames_contains eng e' d s = true;
  objectStore_keeps_stores e t s r e' d s' :
    tx_objectStore eng e t s = (r, e') →
    objectStoreNames_contains eng e' d s' = objectStoreNames_contains eng e d s';
  createIndex_keeps_stores e o i kp u m r e' d s' :
    os_createIndex eng e o i kp u m = (r, e') →
    objectStoreNames_contains eng e' d s' = objectStoreNames_contains eng e d s';
  index_seen_again e t s o e1 i :
    tx_objectStore eng e t s = (inr o, e1) →
    indexNames_contains eng e1 o i = inr true →
    ∃ o', tx_objectStore eng e1 t s = (inr o', e1)
          ∧ indexNames_contains eng e1 o' i = inr true;
  index_declared_seen e t s o e1 i kp u m e2 :
    tx_objectStore eng e t s = (inr o, e1) →
    os_createIndex eng e1 o i kp u m = (inr tt, e2) →
    ∃ o', tx_objectStore eng e2 t s = (inr o', e2)
          ∧ indexNames_contains eng e2 o' i = inr true;
  get_reads e d s k v :
    objectStoreNames_contains eng e d s = true →
    record_at V e d s k = Some v →
    ∃ e', run_request e d s readonly (ReqGet k) = (inr (Succeeded (found V v)), e');
  put_writes e d s v k res e' :
    run_request e d s readwrite (ReqPut v) = (inr (Succeeded res), e') →
    key_of V e d s v = Some k →
    record_at V e' d s k = Some v;
  request_frame e d s' mode rq out e' s k :
    run_request e d s' mode rq = (out, e') →
    ¬ writes V e d s' rq s k →
    record_at V e' d s k = record_at V e d s k;
  request_keeps_stores e d s' mode rq out e' s :
    run_request e d s' mode rq = (out, e') →
    objectStoreNames_contains eng e' d s = objectStoreNames_contains eng e d s
}.

End Contract.

Arguments found {eng} V v : rename.
Arguments key_of {eng} V e d s v : rename.
Arguments record_at {eng} V e d s k : rename.
Arguments writes {eng} V e d s' rq s k.
Arguments run_request {eng} e d storeName mode rq.

(** ** The engine double of the test suite

    The [beforeEach] block of the suite replaces [indexedDB] by an object
    whose state is four collections shared by every database it hands out.
    It is the one engine the repository contains. *)

Module Mock.

(** The JavaScript values the double handles: primitives, which are also
    the keys of its maps, and objects with primitive fields, the records
    of the suite. *)
Inductive Prim :=
  | PUndefined
  | PNull
  | PBool (b : bool)
  | PNumber (n : Z)
  | PString (s : string).

Inductive JsValue :=
  | JPrim (p : Prim)
  | JObject (fields : list (string * Prim)).

(** [request.result]: a value, or the array [getAll] builds. *)
Inductive JsResult :=
  | ResValue (v : JsValue)
  | ResArray (items : list JsValue).

#[global] Instance Prim_eq_dec : EqDecision Prim.
Proof. solve_decision. Defined.
#[global] Instance JsValue_eq_dec : EqDecision JsValue.
Proof. solve_decision. Defined.

(** A JavaScript [Map] with primitive keys, in insertion order: [get],
    [set] (an existing key keeps its place), [delete]. *)
Fixpoint map_get {A} (k : Prim) (m : list (Prim * A)) : option A :=
  match m with
  | [] => None
  | (k', v) :: m' => if decide (k' = k) then Some v else map_get k m'
  end.

Fixpoint map_set {A} (k : Prim) (v : A) (m : list (Prim * A)) : list (Prim * A) :=
  match m with
  | [] => [(k, v)]
  | (k', v') :: m' =>
      if decide (k' = k) then (k, v) :: m' else (k', v') :: map_set k v m'
  end.

Fixpoint map_delete {A} (k : Prim) (m : list (Prim * A)) : list (Prim * A) :=
  match m with
  | [] => []
  | (k', v') :: m' =>
      if decide (k' = k) then map_delete k m' else (k', v') :: map_delete k m'
  end.

(** [data[name]] on an object: the field, if the object has it. *)
Fixpoint field (name : string) (fields : list (string * Prim)) : option Prim :=
  match fields with
  | [] => None
  | (n, v) :: fields' => if decide (n = name) then Some v else field name fields'
  end.

(** [interface MockIndexInfo { keyPath; unique?; multiEntry? }], built as
    [{ keyPath, ...options }] from what the class passes. *)
Record MockIndexInfo := {
  index_keyPath : string;
  index_unique : bool;
  index_multiEntry : bool
}.

(** The state: [mockStores], [mockObjectStoreNames], [storeOptions],
    [mockIndexes], and the values [Math.random()] returns, in order. *)
Record MockState := {
  mockStores : gmap string (list (Prim * JsValue));
  mockObjectStoreNames : gset string;
  storeOptions : gmap string StoreOptions;
  mockIndexes : gmap string (gmap string MockIndexInfo);
  random : nat → Prim;
  draws : nat
}.

(** The database object of one [open] call: its [name] and [version]
    ([version || 1]).  All databases share the state above. *)
Record MockDb := {
  db_name : string;
  db_version : Z
}.

(** [mockUpgradeTransaction], the one object every open request carries
    as [transaction]; or the object [db.transaction(storeNames, mode)]
    returns. *)
Inductive MockTx :=
  | mockUpgradeTransaction
  | MockTransaction (storeNames : list string) (mode : Mode).

(** What [objectStore(storeName)] of either returns: [{ indexNames,
    createIndex }] for the upgrade transaction, the seven request methods
    for the other. *)
Inductive MockStore :=
  | UpgradeStore (storeName : string)
  | DataStore (storeName : string).

Definition with_stores (m : MockState) (stores : gmap string (list (Prim * JsValue)))
    : MockState :=
  {| mockStores := stores; mockObjectStoreNames := mockObjectStoreNames m;
     storeOptions := storeOptions m; mockIndexes := mockIndexes m;
     random := random m; draws := draws m |}.

Definition with_indexes (m : MockState) (ix : gmap string (gmap string MockIndexInfo))
    : MockState :=
  {| mockStores := mockStores m; mockObjectStoreNames := mockObjectStoreNames m;
     storeOptions := storeOptions m; mockIndexes := ix;
     random := random m; draws := draws m |}.

Definition with_draw (m : MockState) : MockState :=
  {| mockStores := mockStores m; mockObjectStoreNames := mockObjectStoreNames m;
     storeOptions := storeOptions m; mockIndexes := mockIndexes m;
     random := random m; draws := S (draws m) |}.

(** [objectStoreNames.contains]. *)
Definition contains (m : MockState) (d : MockDb) (storeName : string) : bool :=
  bool_decide (storeName ∈ mockObjectStoreNames m).

(** [createObjectStore]: a name already known changes nothing. *)
Definition createObjectStore (m : MockState) (d : MockDb) (storeName : string)
    (key_path : option string) (auto_increment : bool) : (Exn + unit) * MockState :=
  if bool_decide (storeName ∈ mockObjectStoreNames m) then (inr tt, m)
  else
    (inr tt,
     {| mockStores := <[storeName := []]> (mockStores m);
        mockObjectStoreNames := mockObjectStoreNames m ∪ {[storeName]};
        storeOptions :=
          <[storeName := {| keyPath := key_path; autoIncrement := Some auto_increment |}]>
            (storeOptions m);
        mockIndexes := mockIndexes m;
        random := random m; draws := draws m |}).

(** [objectStore]: on the upgrade transaction it first gives the store an
    empty index map if it has none. *)
Definition objectStore (m : MockState) (t : MockTx) (storeName : string)
    : (Exn + MockStore) * MockState :=
  match t with
  | mockUpgradeTransaction =>
      (inr (UpgradeStore storeName),
       match mockIndexes m !! storeName with
       | Some _ => m
       | None => with_indexes m (<[storeName := ∅]> (mockIndexes m))
       end)
  | MockTransaction _ _ => (inr (DataStore storeName), m)
  end.

(** [indexNames.contains]; the accessor of a data transaction has no
    [indexNames]. *)
Definition indexContains (m : MockState) (s : MockStore) (indexName : string)
    : Exn + bool :=
  match s with
  | UpgradeStore storeName =>
      inr (bool_decide (is_Some (default ∅ (mockIndexes m !! storeName) !! indexName)))
  | DataStore _ => inl "TypeError"
  end.

(** [createIndex]: a name already known changes nothing. *)
Definition createIndex (m : MockState) (s : MockStore) (indexName key_path : string)
    (is_unique multi_entry : bool) : (Exn + unit) * MockState :=
  match s with
  | UpgradeStore storeName =>
      let indexes := default ∅ (mockIndexes m !! storeName) in
      if bool_decide (is_Some (indexes !! indexName)) then (inr tt, m)
      else
        (inr tt,
         with_indexes m
           (<[storeName :=
                <[indexName := {| index_keyPath := key_path; index_unique := is_unique;
                                  index_multiEntry := multi_entry |}]> indexes]>
              (mockIndexes m)))
  | DataStore _ => (inl "TypeError", m)
  end.

(** The key [add] and [put] compute: [data[opts.keyPath]] when the store
    has a non-empty key path and the data is an object; else [data.id]
    when the data is an object with that field; else [Math.random()].
    The flag tells whether [Math.random()] was called. *)
Definition record_key (opts : StoreOptions) (data : JsValue) (rnd : Prim) : Prim * bool :=
  match keyPath opts, data with
  | Some (String c kp), JObject fields =>
      (default PUndefined (field (String c kp) fields), false)
  | _, JObject fields =>
      match field "id" fields with
      | Some v => (v, false)
      | None => (rnd, true)
      end
  | _, JPrim _ => (rnd, true)
  end.

(** The map a data accessor works on, [mockStores.get(storeName) || new
    Map()], and where its changes go: into [mockStores] when the store is
    there, nowhere when the map was made on the spot. *)
Definition store_of (m : MockState) (storeName : string) : list (Prim * JsValue) :=
  default [] (mockStores m !! storeName).

Definition store_back (m : MockState) (storeName : string)
    (store : list (Prim * JsValue)) : MockState :=
  match mockStores m !! storeName with
  | Some _ => with_stores m (<[storeName := store]> (mockStores m))
  | None => m
  end.

Definition file_record (m : MockState) (storeName : string) (data : JsValue)
    : Completion JsResult * MockState :=
  let opts := default {| keyPath := None; autoIncrement := None |}
                (storeOptions m !! storeName) in
  let '(key, drawn) := record_key opts data (random m (draws m)) in
  let m1 := if drawn : bool then with_draw m else m in
  (Succeeded (ResValue (JPrim key)),
   store_back m1 storeName (map_set key data (store_of m storeName))).

(** The seven request methods; each request succeeds. *)
Definition request (m : MockState) (s : MockStore) (rq : Request JsValue Prim)
    : (Exn + Completion JsResult) * MockState :=
  match s with
  | UpgradeStore _ => (inl "TypeError", m)
  | DataStore storeName =>
      let store := store_of m storeName in
      match rq with
      | ReqAdd data | ReqPut data =>
          let '(c, m') := file_record m storeName data in (inr c, m')
      | ReqGet key =>
          (inr (Succeeded (ResValue (default (JPrim PUndefined) (map_get key store)))), m)
      | ReqDelete key =>
          (inr (Succeeded (ResValue (JPrim PUndefined))),
           store_back m storeName (map_delete key store))
      | ReqClear =>
          (inr (Succeeded (ResValue (JPrim PUndefined))), store_back m storeName [])
      | ReqGetAll => (inr (Succeeded (ResArray (store.*2))), m)
      | ReqCount =>
          (inr (Succeeded (ResValue (JPrim (PNumber (Z.of_nat (length store)))))), m)
      end
  end.

(** The double as an engine.  [open] and [transaction] only build
    objects; [close] is an empty [jest.fn()]. *)
Definition engine : Engine := {|
  Value := JsValue;
  Key := Prim;
  R := JsResult;
  DB := MockDb;
  TX := MockTx;
  OS := MockStore;
  E := MockState;
  indexedDB_open := λ m _ _, (inr tt, m);
  objectStoreNames_contains := contains;
  db_createObjectStore := createObjectStore;
  db_transaction := λ m _ storeNames mode, (inr (MockTransaction storeNames mode), m);
  db_close := λ m _, m;
  tx_objectStore := objectStore;
  indexNames_contains := indexContains;
  os_createIndex := createIndex;
  os_request := request
|}.

(** The notifications [open(name, version)] schedules, in order:
    [onupgradeneeded] when the version is above 1 or no store is known
    yet, then [onsuccess]; with the database and transaction they carry. *)
Definition notifications (m : MockState) (name : string) (version : Z)
    : list (Notification engine) :=
  let d := {| db_name := name; db_version := if decide (version = 0) then 1 else version |} in
  let isFirstTime := bool_decide (size (mockObjectStoreNames m) = 0%nat) in
  (if bool_decide (version ≠ 0 ∧ 1 < version) || isFirstTime
   then [@NUpgradeNeeded engine d mockUpgradeTransaction] else [])
  ++ [@NSuccess engine d].

(** How the content is read off the state. *)
Definition view : EngineView engine := {|
  found := λ v : Value engine, ResValue v : R engine;
  key_of := λ (m : E engine) (_ : DB engine) storeName (data : Value engine),
    match mockStores m !! storeName with
    | Some _ =>
        Some (record_key
                (default {| keyPath := None; autoIncrement := None |}
                   (storeOptions m !! storeName))
                data (random m (draws m))).1
    | None => None
    end;
  record_at := λ (m : E engine) (_ : DB engine) storeName (k : Key engine),
    mockStores m !! storeName ≫= map_get k
|}.

(** The double, except that [transaction] throws [NotFoundError] when a
    store of the list was never declared, which is what the data
    operations meet on the host engine. *)
Definition strict_engine : Engine := {|
  Value := JsValue;
  Key := Prim;
  R := JsResult;
  DB := MockDb;
  TX := MockTx;
  OS := MockStore;
  E := MockState;
  indexedDB_open := λ m _ _, (inr tt, m);
  objectStoreNames_contains := contains;
  db_createObjectStore := createObjectStore;
  db_transaction := λ m _ storeNames mode,
    if forallb (λ s, bool_decide (s ∈ mockObjectStoreNames m)) storeNames
    then (inr (MockTransaction storeNames mode), m)
    else (inl "NotFoundError", m);
  db_close := λ m _, m;
  tx_objectStore := objectStore;
  indexNames_contains := indexContains;
  os_createIndex := createIndex;
  os_request := request
|}.

(** The state the suite starts every test from. *)
Definition empty (rnd : nat → Prim) : MockState :=
  {| mockStores := ∅; mockObjectStoreNames := ∅; storeOptions := ∅; mockIndexes := ∅;
     random := rnd; draws := 0 |}.

End Mock.

(** ** Vocabulary of the statements *)

Section Vocabulary.
Context {eng : Engine}.

(** The store, the transaction mode and the request of each data
    operation, as the specification lists them: read-only for [get],
    [getAll] and [count], read-write for the others.  The two schema
    operations issue none. *)
Definition op_request (op : Operation eng)
    : option (string * Mode * Request (Value eng) (Key eng)) :=
  match op with
  | OpAdd s v => Some (s, readwrite, ReqAdd v)
  | OpGet s k => Some (s, readonly, ReqGet k)
  | OpPut s v => Some (s, readwrite, ReqPut v)
  | OpDelete s k => Some (s, readwrite, ReqDelete k)
  | OpClear s => Some (s, readwrite, ReqClear)
  | OpGetAll s => Some (s, readonly, ReqGetAll)
  | OpCount s => Some (s, readonly, ReqCount)
  | OpCreateStore _ _ | OpCreateIndex _ _ _ _ => None
  end.

(** The calls a data operation is expected to add to the record: the
    transaction, and, as far as the engine lets it go, the store accessor
    and the request. *)
Definition expected_calls (e : E eng) (d : DB eng) (s : string) (mode : Mode)
    (rq : Request (Value eng) (Key eng)) : list (Call eng) :=
  CallTransaction d [s] mode ::
  match db_transaction eng e d [s] mode with
  | (inl _, _) => []
  | (inr t, e1) =>
      CallObjectStore t s ::
      match tx_objectStore eng e1 t s with
      | (inl _, _) => []
      | (inr o, _) => [CallRequest o rq]
      end
  end.

(** The body the seven data methods have in common, with what differs
    between them as arguments: the mode, the request, what the promise
    resolves with, and the error a failed request is wrapped in. *)
Definition data_method {A} (storeName : string) (mode : Mode)
    (rq : Request (Value eng) (Key eng)) (value_of : R eng → A)
    (failed : string → Error) : M eng A :=
  d ←' this_db;
  match d with
  | None => throw NotOpen
  | Some d =>
      transaction ←' call_transaction d [storeName] mode;
      store ←' call_objectStore transaction storeName;
      request ←' call_request store rq;
      match request with
      | Succeeded result => ret (value_of result)
      | Errored m => throw (failed (or_unknown m))
      end
  end.

(** How the promise settles on what the engine answered. *)
Definition settlement {A} (value_of : R eng → A) (failed : string → Error)
    (r : Exn + Completion (R eng)) : Result A :=
  match r with
  | inl x => Throw (EngineException x)
  | inr (Succeeded result) => Ok (value_of result)
  | inr (Errored m) => Throw (failed (or_unknown m))
  end.

Definition is_transaction (c : Call eng) : bool :=
  match c with CallTransaction _ _ _ => true | _ => false end.
Definition is_request (c : Call eng) : bool :=
  match c with CallRequest _ _ => true | _ => false end.
Definition is_declaration (c : Call eng) : bool :=
  match c with
  | CallCreateObjectStore _ _ _ _ | CallCreateIndex _ _ _ _ _ => true
  | _ => false
  end.

(** An event that hands the instance no database: anything but a success
    or an upgrade notification. *)
Definition hands_no_database (ev : Event eng) : Prop :=
  match ev with
  | EvNotify _ (NSuccess _) | EvNotify _ (NUpgradeNeeded _ _) => False
  | _ => True
  end.

(** A computation that assigns no field of the instance. *)
Definition keeps_this {A} (m : M eng A) : Prop := ∀ w, this (m w).2 = this w.

(** Operations called one after the other. *)
Definition invoke_all (w : World eng) (ops : list (Operation eng)) : World eng :=
  foldl (λ w op, (invoke op w).2) w ops.

(** Data operations called one after the other from [w], none of which
    writes the slot of key [k] in store [s]. *)
Fixpoint undisturbed (V : EngineView eng) (d : DB eng) (s : string) (k : Key eng)
    (ops : list (Operation eng)) (w : World eng) : Prop :=
  match ops with
  | [] => True
  | op :: ops' =>
      (∃ s' mode rq, op_request op = Some (s', mode, rq)
                     ∧ ¬ writes V (host w) d s' rq s k)
      ∧ undisturbed V d s k ops' (invoke op w).2
  end.

End Vocabulary.

(** ** Scenarios of the test suite, on its engine double *)

Module Scenario.

(** [Math.random()] is not reached by these scenarios; any sequence
    does. *)
Definition rnd : nat → Mock.Prim := λ n, Mock.PNumber (Z.of_nat n).

Definition test_db : Mock.MockDb :=
  {| Mock.db_name := "test-db"; Mock.db_version := 1 |}.

Definition john : Mock.JsValue :=
  Mock.JObject [("id", Mock.PString "1"); ("name", Mock.PString "John")].
Definition jane : Mock.JsValue :=
  Mock.JObject [("id", Mock.PString "1"); ("name", Mock.PString "Jane")].
Definition mary : Mock.JsValue :=
  Mock.JObject [("id", Mock.PString "2"); ("name", Mock.PString "Mary")].

Definition by_id : option StoreOptions :=
  Some {| keyPath := Some "id"; autoIncrement := None |}.
Definition by_email : option StoreOptions :=
  Some {| keyPath := Some "email"; autoIncrement := Some true |}.
Definition unique_index : option IndexOptions :=
  Some {| unique := Some true; multiEntry := None |}.

(** [() => { idb.createStore('users', { keyPath: 'id' }) }] *)
Definition declare_users : UpgradeCallback Mock.engine :=
  λ _, createStore "users" by_id.

(** [() => { idb.createStore('users', { keyPath: 'id' });
             idb.createIndex('nonexistent', 'email', 'email') }]:
    the second call throws and nothing catches it. *)
Definition declare_then_throw : UpgradeCallback Mock.engine :=
  λ _, createStore "users" by_id ;;' createIndex "nonexistent" "email" "email" None.

(** [new SimpleIDB()] in the environment of the suite. *)
Definition constructed : Config Mock.engine :=
  fresh (eng := Mock.engine) (Mock.empty rnd) true.

(** [open('test-db', 1, callback)] with the notifications the double
    schedules for it. *)
Definition open_with (callback : option (UpgradeCallback Mock.engine))
    : list (Event Mock.engine) :=
  EvOpen "test-db" 1 callback
  :: (EvNotify 0 <$> Mock.notifications (Mock.empty rnd) "test-db" 1).

(** [await idb.open('test-db', 1, () => idb.createStore('users', ...))] *)
Definition opened : Config Mock.engine :=
  run constructed (open_with (Some declare_users)).

(** The same open, stopped after the upgrade notification: the promise
    is still pending. *)
Definition upgrading : Config Mock.engine :=
  run constructed
    [EvOpen "test-db" 1 (Some declare_users);
     EvNotify 0 (NUpgradeNeeded (eng := Mock.engine) test_db Mock.mockUpgradeTransaction)].

(** The world in which an upgrade callback starts (both fields are
    set), and the one it is in once it has declared the store. *)
Definition upgrade_started : World Mock.engine :=
  ((set_db (eng := Mock.engine) (Some test_db)
    ;;' set_upgradeTransaction (eng := Mock.engine) (Some Mock.mockUpgradeTransaction))
     (world constructed)).2.
Definition in_upgrade : World Mock.engine :=
  (createStore "users" by_id upgrade_started).2.

(** An open whose callback throws; the upgrade is then abandoned and the
    request reports an error. *)
Definition thrown : Config Mock.engine :=
  run constructed
    [EvOpen "test-db" 1 (Some declare_then_throw);
     EvNotify 0 (NUpgradeNeeded (eng := Mock.engine) test_db Mock.mockUpgradeTransaction)].
Definition thrown_then_failed : Config Mock.engine :=
  step thrown (EvNotify 0 (NError (Some "AbortError"))).

(** An open that fails before any upgrade notification, then calls. *)
Definition failed_open : list (Event Mock.engine) :=
  [EvOpen "test-db" 1 (Some declare_users);
   EvNotify 0 (NError (Some "VersionError"));
   EvInvoke (OpAdd (eng := Mock.engine) "users" john);
   EvClose].

(** [idb.close()] after the open above, then
    [idb.open('test-db', 2, () => idb.createStore('posts'))] up to its
    upgrade notification: the new promise is pending. *)
Definition test_db_2 : Mock.MockDb :=
  {| Mock.db_name := "test-db"; Mock.db_version := 2 |}.
Definition declare_posts : UpgradeCallback Mock.engine :=
  λ _, createStore "posts" None.
Definition closed : Config Mock.engine := step opened EvClose.
Definition reopening : Config Mock.engine :=
  run closed
    [EvOpen "test-db" 2 (Some declare_posts);
     EvNotify 1 (NUpgradeNeeded (eng := Mock.engine) test_db_2 Mock.mockUpgradeTransaction)].

(** [await idb.put('users', { id: '1', name: 'John' })] on the open
    instance. *)
Definition with_john : World Mock.engine :=
  (put (eng := Mock.engine) "users" john (world opened)).2.

(** Data operations that leave the record of key 1 in [users] alone. *)
Definition elsewhere : list (Operation Mock.engine) :=
  [OpGet (eng := Mock.engine) "users" (Mock.PString "2");
   OpPut (eng := Mock.engine) "users" mary;
   OpCount "users";
   OpDelete (eng := Mock.engine) "users" (Mock.PString "3");
   OpClear "posts"].

(** The environment without [indexedDB]. *)
Definition unsupported : Config Mock.engine :=
  fresh (eng := Mock.engine) (Mock.empty rnd) false.

(** An open instance on the stricter engine, with the same store. *)
Definition strict_opened : World Mock.strict_engine :=
  {| this := Build_SimpleIDB Mock.strict_engine (Some test_db) None;
     host := host (world opened); indexedDB_in_self := true; calls := [] |}.

End Scenario.

(** ** Vocabulary of the further statements *)

Section FurtherVocabulary.
Context {eng : Engine}.

(** The error kind each data operation wraps a failed request in, as the
    error table of the specification lists them. *)
Definition op_failure (op : Operation eng) (msg : string) : Error :=
  match op with
  | OpAdd _ _ => AddFailed msg
  | OpGet _ _ => GetFailed msg
  | OpPut _ _ => PutFailed msg
  | OpDelete _ _ => DeleteFailed msg
  | OpClear _ => ClearFailed msg
  | OpGetAll _ => GetAllFailed msg
  | OpCount _ => CountFailed msg
  | OpCreateStore _ _ | OpCreateIndex _ _ _ _ => EngineException msg
  end.

(** Whether the promise of the operation resolves with [request.result]
    ([get], [getAll], [count]) or with nothing. *)
Definition op_has_value (op : Operation eng) : bool :=
  match op with
  | OpGet _ _ | OpGetAll _ | OpCount _ => true
  | _ => false
  end.

Definition is_schema (op : Operation eng) : bool :=
  match op with
  | OpCreateStore _ _ | OpCreateIndex _ _ _ _ => true
  | _ => false
  end.

(** The body of an upgrade callback that is a sequence of calls: they run
    in order and the first exception ends the body. *)
Fixpoint run_script (ops : list (Operation eng)) : M eng unit :=
  match ops with
  | [] => ret tt
  | op :: ops' => invoke op ;;' run_script ops'
  end.

End FurtherVocabulary.

Module MockView.

(** What the double has recorded for an index of a store, if anything. *)
Definition index_info (m : Mock.MockState) (storeName indexName : string)
    : option Mock.MockIndexInfo :=
  Mock.mockIndexes m !! storeName ≫= (.!! indexName).

(** The records of a store, in the order [getAll] lists them. *)
Definition records (m : Mock.MockState) (storeName : string) : list Mock.JsValue :=
  (Mock.store_of m storeName).*2.

(** The key the double files a record under in a store. *)
Definition key_for (m : Mock.MockState) (storeName : string) (data : Mock.JsValue)
    : Mock.Prim :=
  (Mock.record_key
     (default {| keyPath := None; autoIncrement := None |}
        (Mock.storeOptions m !! storeName))
     data (Mock.random m (Mock.draws m))).1.

(** The database object [open(name, version)] of the double builds. *)
Definition database (name : string) (version : Z) : Mock.MockDb :=
  {| Mock.db_name := name;
     Mock.db_version := if decide (version = 0) then 1 else version |}.

(** A schema call that has nothing left to declare in this state. *)
Definition declared (m : Mock.MockState) (op : Operation Mock.engine) : Prop :=
  match op with
  | OpCreateStore s _ => s ∈ Mock.mockObjectStoreNames m
  | OpCreateIndex s i _ _ =>
      s ∈ Mock.mockObjectStoreNames m ∧ is_Some (index_info m s i)
  | _ => False
  end.

(** A schema call that passes the checks of the class on this instance. *)
Definition ready (t : SimpleIDB Mock.engine) (op : Operation Mock.engine) : Prop :=
  match op with
  | OpCreateStore _ _ => is_Some (db t)
  | OpCreateIndex _ _ _ _ =>
      is_Some (db t) ∧ upgradeTransaction t = Some Mock.mockUpgradeTransaction
  | _ => False
  end.

(** The second state knows every store and index the first knows. *)
Definition extends (m m' : Mock.MockState) : Prop :=
  Mock.mockObjectStoreNames m ⊆ Mock.mockObjectStoreNames m'
  ∧ ∀ s i, is_Some (index_info m s i) → is_Some (index_info m' s i).

End MockView.

(** ** The demo page as a caller *)

Module Demo.

(** The body of the upgrade callback the demo page passes to [open]
    ([DemoApp.tsx], lines 33-38):
    [db.createStore('users', { keyPath: 'id' });
     db.createIndex('users', 'email', 'email', { unique: true });
     db.createIndex('users', 'age', 'age')]. *)
Definition upgrade {eng : Engine} : list (Operation eng) :=
  [OpCreateStore "users" (Some {| keyPath := Some "id"; autoIncrement := None |});
   OpCreateIndex "users" "email" "email" (Some {| unique := Some true; multiEntry := None |});
   OpCreateIndex "users" "age" "age" None].

End Demo.

(** * Properties *)

(** Unfolds the method bodies down to the engine functions. *)
Ltac run_adapter :=
  unfold invoke, void, value in *;
  unfold createStore, createIndex, add, get, put, delete, clear, getAll, count, close,
    open, onsuccess, onupgradeneeded, bind, ret, throw, this_db,
    this_upgradeTransaction, set_db, set_upgradeTransaction, call_open, call_contains,
    call_createObjectStore, call_transaction, call_close, call_objectStore,
    call_indexContains, call_createIndex, call_request, engine_call in *;
  simpl in *.

Section Preconditions.
Context {eng : Engine}.
Implicit Types (w : World eng) (d : DB eng) (t : TX eng).

(** The three checks of [createIndex], in the order the body makes
    them. *)
Lemma createIndex_checks w s i kp o :
  match db (this w) with
  | None => createIndex s i kp o w = (Throw NotOpen, w)
  | Some d =>
      let w1 := {| this := this w; host := host w;
                   indexedDB_in_self := indexedDB_in_self w;
                   calls := calls w ++ [CallContains d s] |} in
      if objectStoreNames_contains eng (host w) d s then
        match upgradeTransaction (this w) with
        | None => createIndex s i kp o w = (Throw IndexCreationOutsideUpgrade, w1)
        | Some t => True
        end
      else createIndex s i kp o w = (Throw (StoreNotFound s), w1)
  end.
Proof.
  run_adapter. destruct (db (this w)) as [d|]; [|done].
  destruct (objectStoreNames_contains eng (host w) d s); simpl; [|done].
  destruct (upgradeTransaction (this w)); done.
Qed.

(** C10.  [createIndex] checks the database reference first, then the
    existence of the store, then the upgrade transaction: without a
    database reference it fails with [NotOpen]; with one, a store the
    database does not have makes it fail with [StoreNotFound] whether or
    not an upgrade transaction is held; only with the store present does a
    missing upgrade transaction give [IndexCreationOutsideUpgrade]. *)
Theorem createIndex_precondition_order w s i kp o :
  (db (this w) = None → (createIndex s i kp o w).1 = Throw NotOpen)
  ∧ (∀ d, db (this w) = Some d →
          objectStoreNames_contains eng (host w) d s = false →
          (createIndex s i kp o w).1 = Throw (StoreNotFound s))
  ∧ (∀ d, db (this w) = Some d →
          objectStoreNames_contains eng (host w) d s = true →
          upgradeTransaction (this w) = None →
          (createIndex s i kp o w).1 = Throw IndexCreationOutsideUpgrade).
Proof.
  pose proof (createIndex_checks w s i kp o) as H.
  split; [|split].
  - intros Hd. rewrite Hd in H. by rewrite H.
  - intros d Hd Hs. rewrite Hd in H. simpl in H. rewrite Hs in H. by rewrite H.
  - intros d Hd Hs Ht. rewrite Hd in H. simpl in H. rewrite Hs, Ht in H. by rewrite H.
Qed.

(** C1, as amended.  Called with a database reference and no upgrade
    transaction, [createIndex] fails: with [IndexCreationOutsideUpgrade]
    when the database has the store, with [StoreNotFound] when it has
    not.  Nothing is declared either way: the only engine call is the
    [contains] query. *)
Theorem createIndex_outside_upgrade w d s i kp o :
  db (this w) = Some d →
  upgradeTransaction (this w) = None →
  (createIndex s i kp o w).1 =
    (if objectStoreNames_contains eng (host w) d s
     then Throw IndexCreationOutsideUpgrade
     else Throw (StoreNotFound s))
  ∧ host (createIndex s i kp o w).2 = host w
  ∧ calls (createIndex s i kp o w).2 = calls w ++ [CallContains d s].
Proof.
  intros Hd Ht. pose proof (createIndex_checks w s i kp o) as H.
  rewrite Hd in H. simpl in H. rewrite Ht in H.
  destruct (objectStoreNames_contains eng (host w) d s); by rewrite H.
Qed.

(** What [createStore] does, case by case: it has no check of the
    upgrade transaction. *)
Lemma createStore_cases w s o :
  match db (this w) with
  | None => createStore s o w = (Throw NotOpen, w)
  | Some d =>
      let w1 := {| this := this w; host := host w;
                   indexedDB_in_self := indexedDB_in_self w;
                   calls := calls w ++ [CallContains d s] |} in
      if objectStoreNames_contains eng (host w) d s then createStore s o w = (Ok tt, w1)
      else
        let kp := o ≫= keyPath in
        let ai := default false (o ≫= autoIncrement) in
        let r := db_createObjectStore eng (host w) d s kp ai in
        createStore s o w =
          (match r.1 with inl x => Throw (EngineException x) | inr _ => Ok tt end,
           {| this := this w; host := r.2; indexedDB_in_self := indexedDB_in_self w;
              calls := calls w ++ [CallContains d s; CallCreateObjectStore d s kp ai] |})
  end.
Proof.
  run_adapter. destruct (db (this w)) as [d|]; [|done].
  destruct (objectStoreNames_contains eng (host w) d s); simpl; [done|].
  destruct (db_createObjectStore _ _ _ _ _ _) as [[x|[]] e']; simpl;
    by rewrite <- app_assoc.
Qed.

(** C2, as amended.  With no upgrade transaction held, [createIndex]
    fails with one of its three precondition errors and declares nothing.
    [createStore] is not gated on the upgrade transaction: it fails with
    [NotOpen] without a database reference, returns with nothing declared
    when the store exists, and otherwise hands the declaration to the
    engine, whose answer is the result. *)
Theorem schema_operations_outside_upgrade w s i kp oi os :
  upgradeTransaction (this w) = None →
  ((createIndex s i kp oi w).1 ∈
     [Throw NotOpen; Throw (StoreNotFound s); Throw IndexCreationOutsideUpgrade]
   ∧ host (createIndex s i kp oi w).2 = host w
   ∧ filter is_declaration (calls (createIndex s i kp oi w).2)
     = filter is_declaration (calls w))
  ∧ match db (this w) with
    | None => createStore s os w = (Throw NotOpen, w)
    | Some d =>
        if objectStoreNames_contains eng (host w) d s then
          (createStore s os w).1 = Ok tt
          ∧ host (createStore s os w).2 = host w
          ∧ filter is_declaration (calls (createStore s os w).2)
            = filter is_declaration (calls w)
        else
          let kp' := os ≫= keyPath in
          let ai := default false (os ≫= autoIncrement) in
          (createStore s os w).1 =
            match (db_createObjectStore eng (host w) d s kp' ai).1 with
            | inl x => Throw (EngineException x)
            | inr _ => Ok tt
            end
          ∧ host (createStore s os w).2 = (db_createObjectStore eng (host w) d s kp' ai).2
    end.
Proof.
  intros Ht.
  pose proof (createIndex_checks w s i kp oi) as Hi.
  pose proof (createStore_cases w s os) as Hs.
  destruct (db (this w)) as [d|]; simpl in *.
  - rewrite Ht in Hi.
    destruct (objectStoreNames_contains eng (host w) d s).
    + rewrite Hi, Hs. simpl. rewrite !filter_app. simpl.
      rewrite !app_nil_r. repeat split; set_solver.
    + rewrite Hi, Hs. simpl. rewrite !filter_app. simpl.
      rewrite !app_nil_r. repeat split; set_solver.
  - rewrite Hi. simpl. repeat split; [set_solver | done].
Qed.

(** C8.  Without [indexedDB] in the global scope, [open] fails with
    [UnsupportedEnvironment] for every name, version and callback, and the
    world is left as it was: no engine call is made, no handler is
    installed, and the promise of the call is rejected on the spot. *)
Theorem open_unsupported (c : Config eng) dbName version callback :
  indexedDB_in_self (world c) = false →
  open dbName version (world c) = (Throw UnsupportedEnvironment, world c)
  ∧ world (step c (EvOpen dbName version callback)) = world c
  ∧ calls (world (step c (EvOpen dbName version callback))) = calls (world c)
  ∧ opens (step c (EvOpen dbName version callback))
    = opens c ++ [{| upgradeCallback := callback; listening := false;
                     settled := Some (Throw UnsupportedEnvironment) |}].
Proof.
  intros H. unfold step. run_adapter. rewrite H. simpl. done.
Qed.

End Preconditions.

Section Lifecycle.
Context {eng : Engine}.
Implicit Types (w : World eng) (c : Config eng) (op : Operation eng).

Lemma keeps_this_ret {A} (a : A) : keeps_this (eng := eng) (ret a).
Proof. done. Qed.
Lemma keeps_this_throw {A} e : keeps_this (eng := eng) (throw (A := A) e).
Proof. done. Qed.
Lemma keeps_this_bind {A B} (m : M eng A) (k : A → M eng B) :
  keeps_this m → (∀ a, keeps_this (k a)) → keeps_this (bind m k).
Proof.
  intros Hm Hk w. unfold bind. specialize (Hm w).
  destruct (m w) as [[a|e] w']; simpl in *; [|done].
  by rewrite Hk.
Qed.
Lemma keeps_this_engine_call {A} (call : Call eng) (f : E eng → (Exn + A) * E eng) :
  keeps_this (engine_call call f).
Proof. intros w. unfold engine_call. by destruct (f (host w)) as [[x|a] e']. Qed.
Lemma keeps_this_this_db : keeps_this (eng := eng) this_db.
Proof. done. Qed.
Lemma keeps_this_this_upgradeTransaction :
  keeps_this (eng := eng) this_upgradeTransaction.
Proof. done. Qed.

Ltac keeps_this_steps :=
  unfold call_open, call_contains, call_createObjectStore, call_transaction,
    call_close, call_objectStore, call_indexContains, call_createIndex, call_request;
  repeat first
    [ apply keeps_this_ret | apply keeps_this_throw | apply keeps_this_engine_call
    | apply keeps_this_this_db | apply keeps_this_this_upgradeTransaction
    | apply keeps_this_bind; [|intros ?]
    | match goal with
      | |- keeps_this (match ?x with _ => _ end) => destruct x
      end ].

(** No operation assigns a field of the instance. *)
Lemma invoke_keeps_this op : keeps_this (invoke op).
Proof.
  destruct op; unfold invoke, void, value, createStore, createIndex, add, get, put,
    delete, clear, getAll, count; keeps_this_steps.
Qed.

Lemma invoke_this w op : this (invoke op w).2 = this w.
Proof. apply invoke_keeps_this. Qed.

Lemma open_this w dbName version : this (open dbName version w).2 = this w.
Proof.
  revert w. change (keeps_this (eng := eng) (open dbName version)). unfold open.
  apply keeps_this_bind; [done|]. intros ?. keeps_this_steps.
Qed.

(** Without a database reference every operation fails with
    [NotOpen]. *)
Lemma not_open_fails w op : db (this w) = None → fails_with w op NotOpen.
Proof.
  intros H. unfold fails_with. destruct op; run_adapter; by rewrite H.
Qed.

(** [close] returns, and leaves no database reference. *)
Lemma close_returns w : (close w).1 = Ok tt ∧ db (this (close w).2) = None.
Proof. run_adapter. destruct (db (this w)); simpl; done. Qed.

(** An event that hands over no database keeps a missing reference
    missing. *)
Lemma step_keeps_closed c ev :
  hands_no_database ev →
  db (this (world c)) = None →
  db (this (world (step c ev))) = None.
Proof.
  intros Hev Hd. destruct ev as [n v cb|i n|op|]; simpl.
  - destruct (open n v (world c)) as [r w'] eqn:Ho.
    pose proof (open_this (world c) n v) as Ht. rewrite Ho in Ht. simpl in Ht.
    simpl. by rewrite Ht.
  - destruct (opens c !! i) as [o|]; [|done].
    destruct (listening o); [|done].
    destruct n; simpl in *; done.
  - by rewrite invoke_this.
  - apply close_returns.
Qed.

Lemma run_keeps_closed evs c :
  Forall hands_no_database evs →
  db (this (world c)) = None →
  db (this (world (run c evs))) = None.
Proof.
  revert c. induction evs as [|ev evs IH]; intros c Hevs Hd; [done|].
  inversion Hevs; subst. simpl. apply IH; [done|]. by apply step_keeps_closed.
Qed.

(** C3, as amended.  From construction on, as long as the engine has
    delivered neither a success nor an upgrade notification to any open
    request, every data and schema operation fails with [NotOpen]; this
    covers a pending open and an open that failed without an upgrade
    notification, with any operations and [close] calls in between. *)
Theorem not_open_until_database_handed (e : E eng) supported evs op :
  Forall hands_no_database evs →
  fails_with (world (run (fresh e supported) evs)) op NotOpen.
Proof.
  intros Hevs. apply not_open_fails. by apply run_keeps_closed.
Qed.

(** C9, as amended.  [close] returns normally in every state, makes the
    engine-level close exactly when a database reference is held, and
    leaves none; a second [close] changes nothing and calls nothing; and
    after a [close] every data and schema operation fails with [NotOpen]
    until the engine delivers a success or an upgrade notification to an
    open request. *)
Theorem close_is_safe_and_final c evs op :
  (close (world c)).1 = Ok tt
  ∧ db (this (close (world c)).2) = None
  ∧ calls (close (world c)).2
    = calls (world c)
      ++ match db (this (world c)) with Some d => [CallClose d] | None => [] end
  ∧ close (close (world c)).2 = (Ok tt, (close (world c)).2)
  ∧ (Forall hands_no_database evs →
     fails_with (world (run (step c EvClose) evs)) op NotOpen).
Proof.
  split; [apply close_returns|]. split; [apply close_returns|].
  split; [|split].
  - run_adapter. destruct (db (this (world c))); simpl; [done|by rewrite app_nil_r].
  - run_adapter. destruct (db (this (world c))); simpl; done.
  - intros Hevs. apply not_open_fails. apply run_keeps_closed; [done|].
    simpl. apply close_returns.
Qed.

(** When the upgrade callback returns, or there is none, the handler
    ends with no upgrade transaction held. *)
Lemma onupgradeneeded_clears_on_return callback d t w :
  (onupgradeneeded callback d t w).1 = Ok tt →
  upgradeTransaction (this (onupgradeneeded callback d t w).2) = None.
Proof.
  run_adapter. destruct callback as [f|]; simpl; [|done].
  destruct (f d _) as [[[]|e] w']; simpl; done.
Qed.

(** When the callback throws, the handler stops there: the world is the
    one the callback left, upgrade transaction included. *)
Lemma onupgradeneeded_stops_on_throw f d t w e :
  let w0 := {| this := {| db := Some d; upgradeTransaction := Some t |};
               host := host w; indexedDB_in_self := indexedDB_in_self w;
               calls := calls w |} in
  (f d w0).1 = Throw e →
  onupgradeneeded (Some f) d t w = (Throw e, (f d w0).2).
Proof.
  intros w0 H. run_adapter. fold w0. destruct (f d w0) as [[[]|e'] w']; simpl in *; congruence.
Qed.

End Lifecycle.

Section DataOperations.
Context {eng : Engine}.
Implicit Types (w : World eng) (d : DB eng) (op : Operation eng).

(** One run of the common body: the engine is driven as [run_request]
    drives it, the calls recorded are the expected ones, and the promise
    settles on the answer. *)
Lemma data_method_run {A} w d s mode rq (value_of : R eng → A) failed :
  db (this w) = Some d →
  data_method s mode rq value_of failed w =
    (settlement value_of failed (run_request (host w) d s mode rq).1,
     {| this := this w; host := (run_request (host w) d s mode rq).2;
        indexedDB_in_self := indexedDB_in_self w;
        calls := calls w ++ expected_calls (host w) d s mode rq |}).
Proof.
  intros Hd. unfold data_method, run_request, expected_calls. run_adapter. rewrite Hd.
  destruct (db_transaction eng (host w) d [s] mode) as [[x|t] e1]; simpl; [done|].
  destruct (tx_objectStore eng e1 t s) as [[x|o] e2]; simpl;
    [by rewrite <- app_assoc|].
  destruct (os_request eng e2 o rq) as [[x|[res|m]] e3]; simpl;
    by rewrite <- !app_assoc.
Qed.

(** Each data operation is the common body at its own mode and
    request. *)
Lemma invoke_data op s mode rq :
  op_request op = Some (s, mode, rq) →
  ∃ (value_of : R eng → option (R eng)) failed,
    ∀ w, invoke op w = data_method s mode rq value_of failed w.
Proof.
  assert (∀ (A : Type) (m : M eng A) (f : A → option (R eng)) s mode rq g failed,
            (∀ w, m w = data_method s mode rq g failed w) →
            ∀ w, (a ←' m; ret (f a)) w
                 = data_method s mode rq (λ r, f (g r)) failed w) as Hshape.
  { intros A m f s0 mode0 rq0 g failed Hm w. unfold bind at 1. rewrite Hm.
    unfold data_method. run_adapter. destruct (db (this w)) as [d|]; [|done].
    destruct (db_transaction eng (host w) d [s0] mode0) as [[x|t] e1]; simpl; [done|].
    destruct (tx_objectStore eng e1 t s0) as [[x|o] e2]; simpl; [done|].
    destruct (os_request eng e2 o rq0) as [[x|[res|m']] e3]; done. }
  destruct op; simpl; intros [= <- <- <-]; eexists _, _; intros w;
    unfold void, value; by apply Hshape.
Qed.

Lemma invoke_data_world w d op s mode rq :
  db (this w) = Some d →
  op_request op = Some (s, mode, rq) →
  this (invoke op w).2 = this w
  ∧ host (invoke op w).2 = (run_request (host w) d s mode rq).2
  ∧ calls (invoke op w).2 = calls w ++ expected_calls (host w) d s mode rq.
Proof.
  intros Hd Hop. destruct (invoke_data op s mode rq Hop) as (f & err & ->).
  by rewrite (data_method_run w d).
Qed.

(** C7, as amended.  A data operation on an instance that holds a
    database reference makes exactly one [transaction] call, for the named
    store alone and in the mode of the operation, read-only for [get],
    [getAll] and [count] and read-write for the others.  When the engine
    returns the transaction and then the store accessor, exactly one
    request follows, against that accessor.  When the engine throws on
    either call, the operation fails with the exception of the engine and
    no request is issued. *)
Theorem data_operation_engine_traffic w d op s mode rq :
  db (this w) = Some d →
  op_request op = Some (s, mode, rq) →
  let new := expected_calls (host w) d s mode rq in
  calls (invoke op w).2 = calls w ++ new
  ∧ filter is_transaction new = [CallTransaction d [s] mode]
  ∧ (∀ t e1 o e2,
       db_transaction eng (host w) d [s] mode = (inr t, e1) →
       tx_objectStore eng e1 t s = (inr o, e2) →
       new = [CallTransaction d [s] mode; CallObjectStore t s; CallRequest o rq]
       ∧ filter is_request new = [CallRequest o rq])
  ∧ (∀ x e1,
       db_transaction eng (host w) d [s] mode = (inl x, e1) →
       (invoke op w).1 = Throw (EngineException x)
       ∧ filter is_request new = [])
  ∧ (∀ t e1 x e2,
       db_transaction eng (host w) d [s] mode = (inr t, e1) →
       tx_objectStore eng e1 t s = (inl x, e2) →
       (invoke op w).1 = Throw (EngineException x)
       ∧ filter is_request new = []).
Proof.
  intros Hd Hop new.
  destruct (invoke_data_world w d op s mode rq Hd Hop) as (_ & _ & Hcalls).
  destruct (invoke_data op s mode rq Hop) as (f & err & Hinv).
  split; [done|]. subst new. unfold expected_calls.
  split; [|split; [|split]].
  - destruct (db_transaction eng (host w) d [s] mode) as [[x|t] e1]; [done|].
    destruct (tx_objectStore eng e1 t s) as [[x|o] e2]; done.
  - intros t e1 o e2 Ht Ho. by rewrite Ht, Ho.
  - intros x e1 Ht. rewrite Hinv, (data_method_run w d) by done.
    unfold run_request. by rewrite Ht.
  - intros t e1 x e2 Ht Ho. rewrite Hinv, (data_method_run w d) by done.
    unfold run_request. by rewrite Ht, Ho.
Qed.

End DataOperations.

Section UnderContract.
Context {eng : Engine} (V : EngineView eng) (HC : EngineContract eng V).
Implicit Types (w : World eng) (d : DB eng) (op : Operation eng).

(** What a successful [createIndex] went through: a database reference,
    the store, an upgrade transaction, the accessor, and then either the
    index was seen or it was declared. *)
Lemma createIndex_returned w s i kp o :
  (createIndex s i kp o w).1 = Ok tt →
  ∃ d t a e1,
    db (this w) = Some d
    ∧ upgradeTransaction (this w) = Some t
    ∧ objectStoreNames_contains eng (host w) d s = true
    ∧ tx_objectStore eng (host w) t s = (inr a, e1)
    ∧ this (createIndex s i kp o w).2 = this w
    ∧ ((indexNames_contains eng e1 a i = inr true
        ∧ host (createIndex s i kp o w).2 = e1)
       ∨ (∃ u m, os_createIndex eng e1 a i kp u m
                 = (inr tt, host (createIndex s i kp o w).2))).
Proof.
  run_adapter. destruct (db (this w)) as [d|]; [|done].
  destruct (objectStoreNames_contains eng (host w) d s) eqn:Hs; simpl; [|done].
  destruct (upgradeTransaction (this w)) as [t|]; simpl; [|done].
  destruct (tx_objectStore eng (host w) t s) as [[x|a] e1] eqn:Ha; simpl; [done|].
  destruct (indexNames_contains eng e1 a i) as [x|[]] eqn:Hi; simpl; [done| |].
  - intros _. exists d, t, a, e1. repeat split; try done. by left.
  - destruct (os_createIndex _ _ _ _ _ _ _) as [[x|[]] e2] eqn:Hc; simpl; [done|].
    intros _. exists d, t, a, e1. repeat split; try done. right. eauto.
Qed.

(** C5.  Declaring twice is declaring once.  When [createStore] has
    returned for a name, a second [createStore] for that name, whatever
    its options, returns as well, asks the engine only whether the store
    exists, and leaves the engine state, hence the configuration of the
    store, as the first call left it.  When [createIndex] has returned for
    an index name on a store (so an upgrade transaction is held), a second
    [createIndex] for that name, whatever its key path and options,
    returns as well, declares nothing, and leaves the engine state, hence
    the options of the index, as the first call left it. *)
Theorem redeclaration_is_noop w s :
  (∀ o1 o2,
     (createStore s o1 w).1 = Ok tt →
     let w1 := (createStore s o1 w).2 in
     ∃ d, db (this w) = Some d
          ∧ createStore s o2 w1 =
              (Ok tt, {| this := this w1; host := host w1;
                         indexedDB_in_self := indexedDB_in_self w1;
                         calls := calls w1 ++ [CallContains d s] |}))
  ∧ (∀ i kp1 o1 kp2 o2,
       (createIndex s i kp1 o1 w).1 = Ok tt →
       let w1 := (createIndex s i kp1 o1 w).2 in
       ∃ d t a, db (this w) = Some d
                ∧ upgradeTransaction (this w) = Some t
                ∧ createIndex s i kp2 o2 w1 =
                    (Ok tt, {| this := this w1; host := host w1;
                               indexedDB_in_self := indexedDB_in_self w1;
                               calls := calls w1
                                 ++ [CallContains d s; CallObjectStore t s;
                                     CallIndexContains a i] |})).
Proof.
  split.
  - intros o1 o2 H1 w1.
    pose proof (createStore_cases w s o1) as Hc.
    destruct (db (this w)) as [d|] eqn:Hd; [|by rewrite Hc in H1].
    exists d. split; [done|]. simpl in Hc.
    assert (this w1 = this w ∧ objectStoreNames_contains eng (host w1) d s = true)
      as [Ht Hs].
    { subst w1. cbv zeta in Hc.
      destruct (objectStoreNames_contains eng (host w) d s) eqn:Hs0.
      - by rewrite Hc.
      - rewrite Hc in H1 |- *. simpl in *. split; [done|].
        destruct (db_createObjectStore _ _ _ _ _ _) as [[x|[]] e'] eqn:He;
          simpl in *; [done|].
        by eapply createObjectStore_declares. }
    pose proof (createStore_cases w1 s o2) as Hc2.
    assert (db (this w1) = Some d) as Hd1 by (by rewrite Ht).
    rewrite Hd1 in Hc2. simpl in Hc2. by rewrite Hs in Hc2.
  - intros i kp1 o1 kp2 o2 H1 w1.
    destruct (createIndex_returned w s i kp1 o1 H1)
      as (d & t & a & e1 & Hd & Ht & Hs & Ha & Hthis & Hcase).
    fold w1 in Hthis, Hcase.
    assert (objectStoreNames_contains eng (host w1) d s = true
            ∧ ∃ a', tx_objectStore eng (host w1) t s = (inr a', host w1)
                    ∧ indexNames_contains eng (host w1) a' i = inr true)
      as [Hs1 (a' & Ha' & Hi')].
    { destruct Hcase as [[Hi ->]|(u & m & Hc)].
      - split.
        + by rewrite (objectStore_keeps_stores _ _ HC _ _ _ _ _ d s Ha).
        + eapply index_seen_again; eauto.
      - split.
        + rewrite (createIndex_keeps_stores _ _ HC _ _ _ _ _ _ _ _ d s Hc).
          by rewrite (objectStore_keeps_stores _ _ HC _ _ _ _ _ d s Ha).
        + eapply index_declared_seen; eauto. }
    exists d, t, a'. split; [done|]. split; [done|].
    assert (db (this w1) = Some d) as Hd1 by (by rewrite Hthis).
    assert (upgradeTransaction (this w1) = Some t) as Ht1 by (by rewrite Hthis).
    clearbody w1. clear Hcase H1 Hthis.
    run_adapter. rewrite Hd1. simpl. rewrite Hs1. simpl. rewrite Ht1. simpl.
    rewrite Ha'. simpl. rewrite Hi'. simpl. by rewrite <- !app_assoc.
Qed.

(** A data operation that does not write the slot keeps the database
    reference, the store and the record in the slot. *)
Lemma undisturbed_step w d s k v op :
  db (this w) = Some d →
  objectStoreNames_contains eng (host w) d s = true →
  record_at V (host w) d s k = Some v →
  (∃ s' mode rq, op_request op = Some (s', mode, rq)
                 ∧ ¬ writes V (host w) d s' rq s k) →
  db (this (invoke op w).2) = Some d
  ∧ objectStoreNames_contains eng (host (invoke op w).2) d s = true
  ∧ record_at V (host (invoke op w).2) d s k = Some v.
Proof.
  intros Hd Hs Hr (s' & mode & rq & Hop & Hw).
  destruct (invoke_data_world w d op s' mode rq Hd Hop) as (Ht & Hh & _).
  rewrite Ht, Hh.
  destruct (run_request (host w) d s' mode rq) as [out e'] eqn:Hrun. simpl.
  split; [done|]. split.
  - by rewrite (request_keeps_stores _ _ HC _ _ _ _ _ _ _ s Hrun).
  - by rewrite (request_frame _ _ HC _ _ _ _ _ _ _ s k Hrun Hw).
Qed.

Lemma undisturbed_run ops w d s k v :
  db (this w) = Some d →
  objectStoreNames_contains eng (host w) d s = true →
  record_at V (host w) d s k = Some v →
  undisturbed V d s k ops w →
  db (this (invoke_all w ops)) = Some d
  ∧ objectStoreNames_contains eng (host (invoke_all w ops)) d s = true
  ∧ record_at V (host (invoke_all w ops)) d s k = Some v.
Proof.
  revert w. induction ops as [|op ops IH]; intros w Hd Hs Hr Hu; [done|].
  destruct Hu as [Hop Hu]. simpl.
  destruct (undisturbed_step w d s k v op Hd Hs Hr Hop) as (Hd' & Hs' & Hr').
  by apply IH.
Qed.

(** C6.  Read your writes.  On an instance that holds a database
    reference, for a store the database has: once [put] of a record has
    resolved, [get] of the key the engine files that record under resolves
    with that record, after any data operations in between that do not
    write that key of that store, and whatever was put under the key
    before. *)
Theorem put_then_get w d s v k ops :
  db (this w) = Some d →
  objectStoreNames_contains eng (host w) d s = true →
  key_of V (host w) d s v = Some k →
  (put s v w).1 = Ok tt →
  undisturbed V d s k ops (put s v w).2 →
  (get s k (invoke_all (put s v w).2 ops)).1 = Ok (found V v).
Proof.
  intros Hd Hs Hk Hput Hu.
  change (put s v) with (data_method s readwrite (ReqPut v) (λ _, tt) PutFailed) in *.
  rewrite (data_method_run w d) in Hput, Hu |- * by done. simpl in *.
  destruct (run_request (host w) d s readwrite (ReqPut v)) as [out e'] eqn:Hrun.
  simpl in *. destruct out as [x|[res|m]]; try done.
  set (w1 := {| this := this w; host := e' |}) in *.
  destruct (undisturbed_run ops w1 d s k v) as (Hd' & Hs' & Hr'); try done.
  { simpl. by rewrite (request_keeps_stores _ _ HC _ _ _ _ _ _ _ s Hrun). }
  { simpl. by eapply put_writes. }
  destruct (get_reads _ _ HC _ _ _ _ _ Hs' Hr') as [e2 Hget].
  change (get s k) with (data_method s readonly (ReqGet k) (λ r, r) GetFailed).
  rewrite (data_method_run _ d) by done. simpl. by rewrite Hget.
Qed.

End UnderContract.

(** ** The engine double honours the contract *)

Section MockContract.

Lemma map_get_set_eq {A} k (v : A) m : Mock.map_get k (Mock.map_set k v m) = Some v.
Proof.
  induction m as [|[k' v'] m IH]; simpl.
  - by rewrite decide_True.
  - destruct (decide (k' = k)); simpl.
    + by rewrite decide_True.
    + by rewrite decide_False.
Qed.

Lemma map_get_set_ne {A} k k' (v : A) m :
  k' ≠ k → Mock.map_get k (Mock.map_set k' v m) = Mock.map_get k m.
Proof.
  intros Hne. induction m as [|[k0 v0] m IH]; simpl.
  - by rewrite decide_False.
  - destruct (decide (k0 = k')) as [->|]; simpl.
    + by rewrite !decide_False.
    + destruct (decide (k0 = k)); done.
Qed.

Lemma map_get_delete_ne {A} k k' (m : list (Mock.Prim * A)) :
  k' ≠ k → Mock.map_get k (Mock.map_delete k' m) = Mock.map_get k m.
Proof.
  intros Hne. induction m as [|[k0 v0] m IH]; simpl; [done|].
  destruct (decide (k0 = k')) as [->|]; simpl.
  - by rewrite decide_False.
  - destruct (decide (k0 = k)); done.
Qed.

(** Writing a store back touches that store only, and only if the
    double knows it. *)
Lemma store_back_lookup m s st s' :
  Mock.mockStores (Mock.store_back m s st) !! s' =
    if decide (s = s') then (λ _, st) <$> Mock.mockStores m !! s'
    else Mock.mockStores m !! s'.
Proof.
  unfold Mock.store_back.
  destruct (decide (s = s')) as [<-|Hne].
  - destruct (Mock.mockStores m !! s) eqn:H; simpl; [|by rewrite H].
    by rewrite lookup_insert_eq.
  - destruct (Mock.mockStores m !! s); simpl; [|done].
    by rewrite lookup_insert_ne.
Qed.

Lemma store_back_names m s st :
  Mock.mockObjectStoreNames (Mock.store_back m s st) = Mock.mockObjectStoreNames m.
Proof. unfold Mock.store_back. by destruct (Mock.mockStores m !! s). Qed.

Lemma file_record_names m s v :
  Mock.mockObjectStoreNames (Mock.file_record m s v).2 = Mock.mockObjectStoreNames m.
Proof.
  unfold Mock.file_record. destruct (Mock.record_key _ _ _) as [key []]; simpl;
    by rewrite store_back_names.
Qed.

Lemma file_record_lookup m s v s' :
  Mock.mockStores (Mock.file_record m s v).2 !! s' =
    if decide (s = s') then
      (λ _, Mock.map_set
              (Mock.record_key
                 (default {| keyPath := None; autoIncrement := None |}
                    (Mock.storeOptions m !! s))
                 v (Mock.random m (Mock.draws m))).1
              v (Mock.store_of m s)) <$> Mock.mockStores m !! s'
    else Mock.mockStores m !! s'.
Proof.
  unfold Mock.file_record. destruct (Mock.record_key _ _ _) as [key []]; simpl;
    by rewrite store_back_lookup.
Qed.

Lemma request_names m o rq :
  Mock.mockObjectStoreNames (Mock.request m o rq).2 = Mock.mockObjectStoreNames m.
Proof.
  destruct o as [s|s]; [done|]. destruct rq; simpl; try done;
    try apply store_back_names.
  all: pose proof (file_record_names m s data) as H;
    by destruct (Mock.file_record m s data).
Qed.

Lemma mock_run_request m d s mode rq :
  run_request (eng := Mock.engine) m d s mode rq = Mock.request m (Mock.DataStore s) rq.
Proof. done. Qed.

Lemma mock_contract : EngineContract Mock.engine Mock.view.
Proof.
  split.
  - (* createObjectStore_declares *)
    intros m d s kp ai m'. simpl. unfold Mock.createObjectStore, Mock.contains.
    case_bool_decide as Hin; intros [= <-]; simpl; apply bool_decide_eq_true; set_solver.
  - (* objectStore_keeps_stores *)
    intros m t s r m' d s'. simpl. unfold Mock.objectStore, Mock.contains.
    destruct t; [|by intros [= <- <-]].
    destruct (Mock.mockIndexes m !! s); by intros [= <- <-].
  - (* createIndex_keeps_stores *)
    intros m o i kp u me r m' d s'. simpl. unfold Mock.createIndex, Mock.contains.
    destruct o; [|by intros [= <- <-]].
    case_bool_decide; by intros [= <- <-].
  - (* index_seen_again *)
    intros m t s o m1 i. simpl. unfold Mock.objectStore.
    destruct t; [|by intros [= <- <-]].
    intros [= <- <-] Hi. exists (Mock.UpgradeStore s). split; [|done].
    destruct (Mock.mockIndexes m !! s) eqn:Hm; simpl.
    + by rewrite Hm.
    + by rewrite lookup_insert_eq.
  - (* index_declared_seen *)
    intros m t s o m1 i kp u me m2. simpl. unfold Mock.objectStore.
    destruct t; [|by intros [= <- <-]].
    intros [= <- Hm1]. unfold Mock.createIndex.
    assert (is_Some (Mock.mockIndexes m1 !! s)) as [ix Hix].
    { subst m1. destruct (Mock.mockIndexes m !! s) eqn:Hm; simpl; [by rewrite Hm|].
      by rewrite lookup_insert_eq. }
    clear Hm1. rewrite Hix. simpl. case_bool_decide as Hi; intros [= <-].
    + exists (Mock.UpgradeStore s). rewrite Hix. split; [done|].
      simpl. rewrite Hix. simpl. by rewrite bool_decide_eq_true_2.
    + exists (Mock.UpgradeStore s). simpl. rewrite !lookup_insert_eq. simpl.
      rewrite lookup_insert_eq. split; [done|].
      by rewrite bool_decide_eq_true_2.
  - (* get_reads *)
    intros m d s k v _. simpl. intros Hr. exists m.
    rewrite mock_run_request. simpl. unfold Mock.store_of.
    destruct (Mock.mockStores m !! s) as [st|]; simpl in *; [|done].
    by rewrite Hr.
  - (* put_writes *)
    intros m d s v k res m'. rewrite mock_run_request. simpl.
    pose proof (file_record_lookup m s v s) as Hl.
    destruct (Mock.file_record m s v) as [c m1]. intros [= _ <-]. simpl in Hl.
    destruct (Mock.mockStores m !! s) as [st|]; [|done]. intros [= <-].
    rewrite Hl, decide_True by done. simpl. apply map_get_set_eq.
  - (* request_frame *)
    intros m d s' mode rq out m' s k. rewrite mock_run_request. unfold writes. simpl.
    destruct rq as [v|k'|v|k'| | |]; simpl.
    + pose proof (file_record_lookup m s' v s) as Hl.
      destruct (Mock.file_record m s' v) as [c m1]. intros [= _ <-] Hw. simpl in Hl.
      rewrite Hl. destruct (decide (s' = s)) as [->|]; [|done].
      unfold Mock.store_of.
      destruct (Mock.mockStores m !! s) as [st|]; [|done]. simpl.
      apply map_get_set_ne. intros Heq. apply Hw. split; [done|]. by rewrite Heq.
    + by intros [= _ <-].
    + pose proof (file_record_lookup m s' v s) as Hl.
      destruct (Mock.file_record m s' v) as [c m1]. intros [= _ <-] Hw. simpl in Hl.
      rewrite Hl. destruct (decide (s' = s)) as [->|]; [|done].
      unfold Mock.store_of.
      destruct (Mock.mockStores m !! s) as [st|]; [|done]. simpl.
      apply map_get_set_ne. intros Heq. apply Hw. split; [done|]. by rewrite Heq.
    + intros [= _ <-] Hw. rewrite store_back_lookup.
      destruct (decide (s' = s)) as [->|]; [|done].
      unfold Mock.store_of.
      destruct (Mock.mockStores m !! s) as [st|]; [|done]. simpl.
      apply map_get_delete_ne. intros Heq. apply Hw. by split.
    + intros [= _ <-] Hw. rewrite store_back_lookup.
      destruct (decide (s' = s)) as [->|]; [|done]. by destruct Hw.
    + by intros [= _ <-].
    + by intros [= _ <-].
  - (* request_keeps_stores *)
    intros m d s' mode rq out m' s. rewrite mock_run_request.
    intros Hr. simpl. unfold Mock.contains.
    pose proof (request_names m (Mock.DataStore s') rq) as Hn.
    rewrite Hr in Hn. simpl in Hn. by rewrite Hn.
Qed.

End MockContract.

(** ** The statements at work on the scenarios of the suite *)

Section Scenarios.
Import Scenario.

(** No open call of a configuration has resolved when none of its
    promises is settled with a value. *)
Lemma none_resolved (c : Config Mock.engine) :
  forallb (λ o, match settled o with Some (Ok _) => false | _ => true end) (opens c) = true →
  ¬ open_succeeded c.
Proof.
  intros Hall (i & o & Hl & Hs).
  rewrite forallb_forall in Hall.
  apply list_elem_of_lookup_2, list_elem_of_In, Hall in Hl. by rewrite Hs in Hl.
Qed.

(** The order at work: inside an upgrade, with the upgrade transaction
    held, a store that was never declared still gives [StoreNotFound]. *)
Lemma createIndex_precondition_order_witness :
  upgradeTransaction (this in_upgrade) = Some Mock.mockUpgradeTransaction
  ∧ (createIndex "nonexistent" "email" "email" None in_upgrade).1
    = Throw (StoreNotFound "nonexistent").
Proof.
  split; [vm_compute; reflexivity|].
  apply (proj1 (proj2 (createIndex_precondition_order in_upgrade
                         "nonexistent" "email" "email" None)) test_db);
    vm_compute; reflexivity.
Defined.

(** C1, a case the statement gets wrong: the instance is open, no
    upgrade transaction is held, the store was never declared, and
    [createIndex] fails with [StoreNotFound]. *)
Lemma createIndex_outside_upgrade_store_missing :
  db (this (world opened)) = Some test_db
  ∧ upgradeTransaction (this (world opened)) = None
  ∧ Mock.contains (host (world opened)) test_db "orders" = false
  ∧ (createIndex "orders" "email" "email" None (world opened)).1
    = Throw (StoreNotFound "orders").
Proof. repeat split; vm_compute; reflexivity. Qed.

(** The amended statement at work: after the open has resolved,
    [createIndex] on the store that exists is refused for want of an
    upgrade transaction. *)
Lemma createIndex_outside_upgrade_witness :
  (createIndex "users" "email" "email" unique_index (world opened)).1
  = Throw IndexCreationOutsideUpgrade.
Proof.
  destruct (createIndex_outside_upgrade (world opened) test_db
              "users" "email" "email" unique_index) as [H _];
    [vm_compute; reflexivity ..|].
  exact H.
Defined.

(** C2, a case the statement gets wrong: after the open has resolved no
    upgrade transaction is held, and [createStore] for the store that
    exists returns normally. *)
Lemma createStore_outside_upgrade_returns :
  upgradeTransaction (this (world opened)) = None
  ∧ (createStore "users" by_email (world opened)).1 = Ok tt.
Proof. split; vm_compute; reflexivity. Qed.

(** The amended statement at work on the open instance: [createIndex]
    fails with one of its three errors, [createStore] of the existing store
    returns. *)
Lemma schema_operations_outside_upgrade_witness :
  (createIndex "users" "email" "email" None (world opened)).1 ∈
    [Throw NotOpen; Throw (StoreNotFound "users"); Throw IndexCreationOutsideUpgrade]
  ∧ (createStore "users" by_email (world opened)).1 = Ok tt.
Proof.
  destruct (schema_operations_outside_upgrade (world opened)
              "users" "email" "email" None by_email) as [[Hi _] Hs];
    [vm_compute; reflexivity|].
  split; [exact Hi|]. exact (proj1 Hs).
Defined.

(** C3, a case the statement gets wrong: the open is pending, its
    upgrade notification has been delivered and its callback has declared
    [users] without an exception; no open call has resolved, and neither
    [get] nor [createStore] fails with [NotOpen]. *)
Lemma operations_during_pending_open :
  ¬ open_succeeded upgrading
  ∧ uncaught upgrading = []
  ∧ Mock.contains (host (world upgrading)) test_db "users" = true
  ∧ (invoke (OpGet (eng := Mock.engine) "users" (Mock.PString "1")) (world upgrading)).1
    = Ok (Some (Mock.ResValue (Mock.JPrim Mock.PUndefined)))
  ∧ (invoke (OpCreateStore "posts" None) (world upgrading)).1 = Ok None.
Proof.
  split; [apply none_resolved|repeat split]; vm_compute; reflexivity.
Qed.

(** The amended statement at work: an open that fails at once, a call
    and a [close] hand over no database, and [get] fails with [NotOpen]. *)
Lemma not_open_until_database_handed_witness :
  Forall hands_no_database failed_open
  ∧ fails_with (world (run constructed failed_open))
      (OpGet (eng := Mock.engine) "users" (Mock.PString "1")) NotOpen.
Proof.
  assert (Forall hands_no_database failed_open) as H by (repeat constructor).
  split; [exact H|].
  exact (not_open_until_database_handed (eng := Mock.engine) (Mock.empty rnd) true failed_open _ H).
Defined.

(** C4, where the code departs from the statement.  The upgrade callback
    declares [users] and then throws; the handler stops at the throw, so
    the upgrade transaction is still held when the handler is over, and
    still held after the request has reported its error; a later
    [createIndex] goes through it and declares the index. *)
Theorem upgrade_transaction_survives_throwing_callback :
  uncaught thrown = [StoreNotFound "nonexistent"]
  ∧ upgradeTransaction (this (world thrown)) = Some Mock.mockUpgradeTransaction
  ∧ (settled <$> opens thrown_then_failed)
    = [Some (Throw (OpenFailed "AbortError"))]
  ∧ upgradeTransaction (this (world thrown_then_failed))
    = Some Mock.mockUpgradeTransaction
  ∧ (createIndex "users" "email" "email" None (world thrown_then_failed)).1 = Ok tt
  ∧ Mock.indexContains
      (host (createIndex "users" "email" "email" None (world thrown_then_failed)).2)
      (Mock.UpgradeStore "users") "email"
    = inr true.
Proof. repeat split; vm_compute; reflexivity. Qed.

(** Redeclaration at work in an upgrade: [users] declared by [id], then
    again by [email]; the [email] index declared unique on [email], then
    again on [name]. *)
Lemma redeclaration_is_noop_witness :
  (createStore "users" by_email (createStore "users" by_id upgrade_started).2).1 = Ok tt
  ∧ host (createStore "users" by_email (createStore "users" by_id upgrade_started).2).2
    = host (createStore "users" by_id upgrade_started).2
  ∧ (createIndex "users" "email" "name" None
       (createIndex "users" "email" "email" unique_index in_upgrade).2).1 = Ok tt
  ∧ host (createIndex "users" "email" "name" None
            (createIndex "users" "email" "email" unique_index in_upgrade).2).2
    = host (createIndex "users" "email" "email" unique_index in_upgrade).2.
Proof.
  destruct (proj1 (redeclaration_is_noop Mock.view mock_contract upgrade_started "users")
              by_id by_email) as (d & _ & Hs); [vm_compute; reflexivity|].
  destruct (proj2 (redeclaration_is_noop Mock.view mock_contract in_upgrade "users")
              "email" "email" unique_index "name" None) as (d' & t & a & _ & _ & Hi);
    [vm_compute; reflexivity|].
  rewrite Hs, Hi. done.
Defined.

(** The configuration the double keeps for the store, and the options
    it keeps for the index, are those of the first declaration. *)
Example redeclared_keeps_first_configuration :
  Mock.storeOptions
    (host (createStore "users" by_email (createStore "users" by_id upgrade_started).2).2)
    !! "users"
  = Some {| keyPath := Some "id"; autoIncrement := Some false |}
  ∧ Mock.mockIndexes
      (host (createIndex "users" "email" "name" None
               (createIndex "users" "email" "email" unique_index in_upgrade).2).2)
      !! "users" ≫= (.!! "email")
    = Some {| Mock.index_keyPath := "email"; Mock.index_unique := true;
              Mock.index_multiEntry := false |}.
Proof. split; vm_compute; reflexivity. Qed.

Ltac elsewhere_op :=
  eexists _, _, _; split; [reflexivity|];
  let Hs := fresh in let Hw := fresh in
  intros [Hs Hw]; first [discriminate Hs | vm_compute in Hw; first [discriminate Hw | exact Hw]].

(** Read-your-writes at work: John is stored under key 1, Jane is put
    under the same key, other slots are read and written, and [get] of key
    1 resolves with Jane. *)
Lemma put_then_get_witness :
  (get (eng := Mock.engine) "users" (Mock.PString "1")
     (invoke_all (put (eng := Mock.engine) "users" jane with_john).2 elsewhere)).1
  = Ok (Mock.ResValue jane).
Proof.
  apply (put_then_get (eng := Mock.engine) Mock.view mock_contract with_john test_db
           "users" jane (Mock.PString "1") elsewhere); try (vm_compute; reflexivity).
  unfold elsewhere. cbn [undisturbed].
  do 5 (split; [elsewhere_op|]). exact I.
Defined.

(** C7, a case the statement gets wrong: on an engine that rejects a
    transaction over an undeclared store, [get] on such a store makes the
    transaction call and issues no request. *)
Lemma get_on_undeclared_store_issues_no_request :
  db (this strict_opened) = Some test_db
  ∧ (get (eng := Mock.strict_engine) "orders" (Mock.PString "1") strict_opened).1
    = Throw (EngineException "NotFoundError")
  ∧ calls (get (eng := Mock.strict_engine) "orders" (Mock.PString "1") strict_opened).2
    = [CallTransaction (eng := Mock.strict_engine) test_db ["orders"] readonly]
  ∧ filter is_request (calls (get (eng := Mock.strict_engine) "orders" (Mock.PString "1") strict_opened).2) = [].
Proof. repeat split; vm_compute; reflexivity. Qed.

(** The traffic of one [put] on the open instance: the transaction, the
    accessor, the request. *)
Lemma data_operation_engine_traffic_witness :
  calls (invoke (OpPut (eng := Mock.engine) "users" jane) (world opened)).2
  = calls (world opened)
    ++ [CallTransaction (eng := Mock.engine) test_db ["users"] readwrite;
        CallObjectStore (eng := Mock.engine)
          (Mock.MockTransaction ["users"] readwrite) "users";
        CallRequest (eng := Mock.engine) (Mock.DataStore "users") (ReqPut jane)].
Proof.
  destruct (data_operation_engine_traffic (world opened) test_db
              (OpPut (eng := Mock.engine) "users" jane) "users" readwrite (ReqPut jane))
    as (Hc & _ & Hr & _); [vm_compute; reflexivity ..|].
  destruct (Hr (Mock.MockTransaction ["users"] readwrite) (host (world opened))
              (Mock.DataStore "users") (host (world opened))) as [Hnew _];
    [reflexivity ..|].
  by rewrite Hc, Hnew.
Defined.

(** [open] in the environment without [indexedDB]. *)
Lemma open_unsupported_witness :
  open "test-db" 1 (world unsupported) = (Throw UnsupportedEnvironment, world unsupported)
  ∧ calls (world (step unsupported (EvOpen "test-db" 1 (Some declare_users)))) = [].
Proof.
  destruct (open_unsupported unsupported "test-db" 1 (Some declare_users))
    as (Ho & _ & Hc & _); [reflexivity|].
  split; [exact Ho|exact Hc].
Defined.

(** C9, a case the statement gets wrong: after [close], a new open is
    called and its upgrade notification delivered; its promise is still
    pending, its callback has declared [posts] without an exception, and
    [createStore] and [get] do not fail with [NotOpen]. *)
Lemma operations_after_close_before_open_resolves :
  db (this (world closed)) = None
  ∧ (settled <$> opens reopening) = [Some (Ok tt); None]
  ∧ uncaught reopening = []
  ∧ Mock.contains (host (world reopening)) test_db_2 "posts" = true
  ∧ (invoke (OpCreateStore "orders" None) (world reopening)).1 = Ok None
  ∧ (invoke (OpGet (eng := Mock.engine) "users" (Mock.PString "1")) (world reopening)).1
    = Ok (Some (Mock.ResValue (Mock.JPrim Mock.PUndefined))).
Proof. repeat split; vm_compute; reflexivity. Qed.

(** [close] on the open instance: one engine-level close, a second
    [close] that changes nothing, and [put] refused after a failed
    reopening. *)
Lemma close_is_safe_and_final_witness :
  (close (world opened)).1 = Ok tt
  ∧ calls (close (world opened)).2
    = calls (world opened) ++ [CallClose (eng := Mock.engine) test_db]
  ∧ close (close (world opened)).2 = (Ok tt, (close (world opened)).2)
  ∧ fails_with (world (run (step opened EvClose) failed_open))
      (OpPut (eng := Mock.engine) "users" jane) NotOpen.
Proof.
  destruct (close_is_safe_and_final opened failed_open
              (OpPut (eng := Mock.engine) "users" jane)) as (H1 & _ & H3 & H4 & H5).
  split; [exact H1|]. split; [exact H3|]. split; [exact H4|].
  apply H5. repeat constructor.
Defined.

End Scenarios.

(** * Further properties of the class *)

Section FurtherProperties.
Context {eng : Engine}.
Implicit Types (w : World eng) (c : Config eng) (op : Operation eng).

(** X1.  Without a database reference an operation fails with [NotOpen]
    before anything else happens: the world, engine state and record of
    engine calls included, is exactly as it was. *)
Theorem not_open_touches_nothing w op :
  db (this w) = None → invoke op w = (Throw NotOpen, w).
Proof.
  intros H. destruct op; run_adapter; by rewrite H.
Qed.

(** X2.  No data or schema operation assigns the fields of the instance,
    whether it returns or throws: an operation neither opens nor closes
    the instance and neither takes nor drops an upgrade transaction. *)
Theorem operations_keep_instance w op :
  db (this (invoke op w).2) = db (this w)
  ∧ upgradeTransaction (this (invoke op w).2) = upgradeTransaction (this w).
Proof. by rewrite invoke_this. Qed.

(** X3.  How a data operation on an open instance settles.  An exception
    the engine throws while the transaction, the accessor or the request is
    made rejects the promise unwrapped.  A request that reports an error
    rejects it with the error kind of the operation, carrying the message
    of the engine, or [Unknown error] when there is none or it is empty.  A
    request that succeeds resolves it: with [request.result], unchanged, for
    [get], [getAll] and [count], with nothing for the others. *)
Theorem data_operation_settles w d op s mode rq :
  db (this w) = Some d →
  op_request op = Some (s, mode, rq) →
  (invoke op w).1 =
    match (run_request (host w) d s mode rq).1 with
    | inl x => Throw (EngineException x)
    | inr (Errored m) => Throw (op_failure op (or_unknown m))
    | inr (Succeeded result) => Ok (if op_has_value op then Some result else None)
    end.
Proof.
  intros Hd Hop.
  assert (∀ (f : R eng → option (R eng)) failed,
            (invoke op w).1
            = settlement f failed (run_request (host w) d s mode rq).1 →
            (∀ r, f r = if op_has_value op then Some r else None) →
            (∀ m, failed m = op_failure op m) →
            (invoke op w).1 =
              match (run_request (host w) d s mode rq).1 with
              | inl x => Throw (EngineException x)
              | inr (Errored m) => Throw (op_failure op (or_unknown m))
              | inr (Succeeded result) =>
                  Ok (if op_has_value op then Some result else None)
              end) as Hgen.
  { intros f failed -> Hf Hfailed. unfold settlement.
    destruct (run_request (host w) d s mode rq).1 as [x|[r|m]]; [done| |].
    - by rewrite Hf.
    - by rewrite Hfailed. }
  destruct op; simpl in Hop; try done; injection Hop as <- <- <-.
  - apply (Hgen (λ _, None) AddFailed); [|done..]. cbn [invoke]. unfold void.
    change (add storeName data) with
      (data_method storeName readwrite (ReqAdd data) (λ _, tt) AddFailed).
    unfold bind. rewrite (data_method_run w d) by done. simpl.
    by destruct (run_request _ _ _ _ _).1 as [x|[r|m]].
  - apply (Hgen Some GetFailed); [|done..]. cbn [invoke]. unfold value.
    change (get storeName key) with
      (data_method storeName readonly (ReqGet key) (λ r, r) GetFailed).
    unfold bind. rewrite (data_method_run w d) by done. simpl.
    by destruct (run_request _ _ _ _ _).1 as [x|[r|m]].
  - apply (Hgen (λ _, None) PutFailed); [|done..]. cbn [invoke]. unfold void.
    change (put storeName data) with
      (data_method storeName readwrite (ReqPut data) (λ _, tt) PutFailed).
    unfold bind. rewrite (data_method_run w d) by done. simpl.
    by destruct (run_request _ _ _ _ _).1 as [x|[r|m]].
  - apply (Hgen (λ _, None) DeleteFailed); [|done..]. cbn [invoke]. unfold void.
    change (delete storeName key) with
      (data_method storeName readwrite (ReqDelete key) (λ _, tt) DeleteFailed).
    unfold bind. rewrite (data_method_run w d) by done. simpl.
    by destruct (run_request _ _ _ _ _).1 as [x|[r|m]].
  - apply (Hgen (λ _, None) ClearFailed); [|done..]. cbn [invoke]. unfold void.
    change (clear storeName) with
      (data_method (eng := eng) storeName readwrite ReqClear (λ _, tt) ClearFailed).
    unfold bind. rewrite (data_method_run w d) by done. simpl.
    by destruct (run_request _ _ _ _ _).1 as [x|[r|m]].
  - apply (Hgen Some GetAllFailed); [|done..]. cbn [invoke]. unfold value.
    change (getAll storeName) with
      (data_method (eng := eng) storeName readonly ReqGetAll (λ r, r) GetAllFailed).
    unfold bind. rewrite (data_method_run w d) by done. simpl.
    by destruct (run_request _ _ _ _ _).1 as [x|[r|m]].
  - apply (Hgen Some CountFailed); [|done..]. cbn [invoke]. unfold value.
    change (count storeName) with
      (data_method (eng := eng) storeName readonly ReqCount (λ r, r) CountFailed).
    unfold bind. rewrite (data_method_run w d) by done. simpl.
    by destruct (run_request _ _ _ _ _).1 as [x|[r|m]].
Qed.

(** Exceptions that escaped a handler stay on record. *)
Lemma step_keeps_uncaught c ev : uncaught c ≠ [] → uncaught (step c ev) ≠ [].
Proof.
  intros Hne. destruct ev as [n v cb|i n|op|]; simpl; try done.
  - by destruct (open n v (world c)).
  - destruct (opens c !! i) as [o|]; [|done].
    destruct (listening o); [|done].
    destruct (notify o n (world c)) as [[o' w'] es]. simpl.
    intros [H _]%app_eq_nil. done.
Qed.

(** One event leaves the instance without an upgrade transaction, unless
    an exception escapes the handler of that event. *)
Lemma step_keeps_no_upgrade c ev :
  upgradeTransaction (this (world c)) = None →
  uncaught (step c ev) ≠ []
  ∨ upgradeTransaction (this (world (step c ev))) = None.
Proof.
  intros Hu. destruct ev as [n v cb|i n|op|]; simpl.
  - right. destruct (open n v (world c)) as [r w'] eqn:Ho.
    pose proof (open_this (world c) n v) as Ht. rewrite Ho in Ht. simpl in *.
    by rewrite Ht.
  - destruct (opens c !! i) as [o|] eqn:Hl; [|by right].
    destruct (listening o); [|by right].
    destruct n as [d|m|d t]; simpl; [by right..|].
    pose proof (onupgradeneeded_clears_on_return (upgradeCallback o) d t (world c)) as Hc.
    destruct (onupgradeneeded (upgradeCallback o) d t (world c)) as [[[]|e] w'];
      simpl in *.
    + right. by apply Hc.
    + left. intros [_ H]%app_eq_nil. done.
  - right. by rewrite invoke_this.
  - right. run_adapter. by destruct (db (this (world c))).
Qed.

(** X4.  Unless an exception has escaped an upgrade callback, the
    instance holds no upgrade transaction between events: after any
    sequence of open calls, engine notifications, operations and [close]
    calls since construction in which no handler has thrown,
    [upgradeTransaction] is null, so the transaction of an upgrade is never
    there for a call made outside the callback. *)
Theorem no_upgrade_transaction_between_events (e : E eng) supported evs :
  uncaught (run (fresh e supported) evs) = [] →
  upgradeTransaction (this (world (run (fresh e supported) evs))) = None.
Proof.
  assert (∀ c, uncaught c ≠ [] ∨ upgradeTransaction (this (world c)) = None →
               uncaught (run c evs) ≠ []
               ∨ upgradeTransaction (this (world (run c evs))) = None) as Hrun.
  { induction evs as [|ev evs IH]; intros c Hc; [done|].
    simpl. apply IH. destruct Hc as [Hne|Hu].
    - left. by apply step_keeps_uncaught.
    - by apply step_keeps_no_upgrade. }
  intros Hnone. destruct (Hrun (fresh e supported)) as [Hne|Hu]; [by right|done..].
Qed.

End FurtherProperties.

(** * The class on the engine double of the suite *)

Section OnTheDouble.
Implicit Types (w : World Mock.engine) (m : Mock.MockState) (d : Mock.MockDb).

Lemma map_get_delete_eq {A} k (l : list (Mock.Prim * A)) :
  Mock.map_get k (Mock.map_delete k l) = None.
Proof.
  induction l as [|[k' v] l IH]; simpl; [done|].
  destruct (decide (k' = k)); simpl; [done|]. by rewrite decide_False.
Qed.

Lemma map_set_absent {A} k (v : A) l :
  Mock.map_get k l = None → Mock.map_set k v l = l ++ [(k, v)].
Proof.
  induction l as [|[k' v'] l IH]; simpl; [done|].
  destruct (decide (k' = k)); [done|]. intros H. by rewrite IH.
Qed.

Lemma map_set_present_length {A} k (v : A) l :
  is_Some (Mock.map_get k l) → length (Mock.map_set k v l) = length l.
Proof.
  induction l as [|[k' v'] l IH]; simpl; [by intros [? ?]|].
  destruct (decide (k' = k)); simpl; [done|]. intros H. by rewrite IH.
Qed.

(** One data method on the double: the request goes straight to the
    accessor of the store. *)
Lemma data_method_on_double {A} w d s mode rq (value_of : Mock.JsResult → A) failed :
  db (this w) = Some d →
  data_method (eng := Mock.engine) s mode rq value_of failed w =
    (settlement (eng := Mock.engine) value_of failed
       (Mock.request (host w) (Mock.DataStore s) rq).1,
     {| this := this w; host := (Mock.request (host w) (Mock.DataStore s) rq).2;
        indexedDB_in_self := indexedDB_in_self w;
        calls := calls w ++ expected_calls (host w) d s mode rq |}).
Proof. intros Hd. by rewrite (data_method_run w d). Qed.

(** The store a writing request leaves behind. *)
Lemma store_after_filing m s v :
  Mock.store_of (Mock.file_record m s v).2 s =
    match Mock.mockStores m !! s with
    | Some st => Mock.map_set (MockView.key_for m s v) v st
    | None => []
    end.
Proof.
  unfold Mock.store_of at 1. rewrite file_record_lookup, decide_True by done.
  unfold Mock.store_of, MockView.key_for. by destruct (Mock.mockStores m !! s).
Qed.

Lemma store_after_back m s st :
  Mock.store_of (Mock.store_back m s st) s =
    match Mock.mockStores m !! s with Some _ => st | None => [] end.
Proof.
  unfold Mock.store_of at 1. rewrite store_back_lookup, decide_True by done.
  by destruct (Mock.mockStores m !! s).
Qed.

(** X5.  On the double [add] is an upsert: for a store it holds, [add]
    resolves whatever the store has under the key of the record, a
    duplicate included, and a [get] of that key then resolves with the
    record added. *)
Theorem add_then_get_on_double w d s v :
  db (this w) = Some d →
  is_Some (Mock.mockStores (host w) !! s) →
  (add (eng := Mock.engine) s v w).1 = Ok tt
  ∧ (get (eng := Mock.engine) s (MockView.key_for (host w) s v)
       (add (eng := Mock.engine) s v w).2).1
    = Ok (Mock.ResValue v).
Proof.
  intros Hd [st Hst].
  change (add (eng := Mock.engine) s v) with
    (data_method (eng := Mock.engine) s readwrite (ReqAdd v) (λ _, tt) AddFailed).
  rewrite (data_method_on_double w d) by done. simpl.
  pose proof (store_after_filing (host w) s v) as Hs. rewrite Hst in Hs.
  destruct (Mock.file_record (host w) s v) as [c m1] eqn:Hf. simpl in *.
  assert (c = Succeeded (Mock.ResValue (Mock.JPrim (MockView.key_for (host w) s v))))
    as ->.
  { unfold Mock.file_record, MockView.key_for in *.
    destruct (Mock.record_key _ _ _) as [key drawn]. by injection Hf as <- _. }
  split; [done|].
  change (get (eng := Mock.engine) s (MockView.key_for (host w) s v)) with
    (data_method (eng := Mock.engine) s readonly
       (ReqGet (MockView.key_for (host w) s v)) (λ r, r) GetFailed).
  rewrite (data_method_on_double _ d) by done. simpl.
  by rewrite Hs, map_get_set_eq.
Qed.

(** X6.  On the double, [delete] resolves for every store and key, the
    key being there or not, and a [get] of that key then resolves with
    [undefined]. *)
Theorem delete_then_get_on_double w d s k :
  db (this w) = Some d →
  (delete (eng := Mock.engine) s k w).1 = Ok tt
  ∧ (get (eng := Mock.engine) s k (delete (eng := Mock.engine) s k w).2).1
    = Ok (Mock.ResValue (Mock.JPrim Mock.PUndefined)).
Proof.
  intros Hd.
  change (delete (eng := Mock.engine) s k) with
    (data_method (eng := Mock.engine) s readwrite (ReqDelete k) (λ _, tt) DeleteFailed).
  rewrite (data_method_on_double w d) by done. simpl. split; [done|].
  change (get (eng := Mock.engine) s k) with
    (data_method (eng := Mock.engine) s readonly (ReqGet k) (λ r, r) GetFailed).
  rewrite (data_method_on_double _ d) by done. simpl.
  rewrite store_after_back.
  destruct (Mock.mockStores (host w) !! s); simpl; [|done].
  by rewrite map_get_delete_eq.
Qed.

(** X7.  On the double, after [clear] has resolved the store is empty:
    [count] resolves with 0, [getAll] with the empty array and [get] of any
    key with [undefined]. *)
Theorem clear_empties_on_double w d s k :
  db (this w) = Some d →
  let w' := (clear (eng := Mock.engine) s w).2 in
  (clear (eng := Mock.engine) s w).1 = Ok tt
  ∧ (count (eng := Mock.engine) s w').1 = Ok (Mock.ResValue (Mock.JPrim (Mock.PNumber 0)))
  ∧ (getAll (eng := Mock.engine) s w').1 = Ok (Mock.ResArray [])
  ∧ (get (eng := Mock.engine) s k w').1 = Ok (Mock.ResValue (Mock.JPrim Mock.PUndefined)).
Proof.
  intros Hd w'. subst w'.
  change (clear (eng := Mock.engine) s) with
    (data_method (eng := Mock.engine) s readwrite ReqClear (λ _, tt) ClearFailed).
  rewrite (data_method_on_double w d) by done. simpl. split; [done|].
  change (count (eng := Mock.engine) s) with
    (data_method (eng := Mock.engine) s readonly ReqCount (λ r, r) CountFailed).
  change (getAll (eng := Mock.engine) s) with
    (data_method (eng := Mock.engine) s readonly ReqGetAll (λ r, r) GetAllFailed).
  change (get (eng := Mock.engine) s k) with
    (data_method (eng := Mock.engine) s readonly (ReqGet k) (λ r, r) GetFailed).
  rewrite !(data_method_on_double _ d) by done. simpl.
  rewrite store_after_back.
  by destruct (Mock.mockStores (host w) !! s).
Qed.

(** X8.  On the double, [put] into a store it holds grows the store by
    one record exactly when the key of the record is new: then [getAll]
    lists the old records in their order followed by the new one and
    [count] is one more; when the key is already there [count] is
    unchanged. *)
Theorem put_grows_store_on_double w d s v st :
  db (this w) = Some d →
  Mock.mockStores (host w) !! s = Some st →
  let k := MockView.key_for (host w) s v in
  let w' := (put (eng := Mock.engine) s v w).2 in
  (Mock.map_get k st = None →
     (getAll (eng := Mock.engine) s w').1 = Ok (Mock.ResArray (st.*2 ++ [v]))
     ∧ (count (eng := Mock.engine) s w').1
       = Ok (Mock.ResValue (Mock.JPrim (Mock.PNumber (Z.of_nat (length st) + 1)))))
  ∧ (is_Some (Mock.map_get k st) →
     (count (eng := Mock.engine) s w').1
     = Ok (Mock.ResValue (Mock.JPrim (Mock.PNumber (Z.of_nat (length st)))))).
Proof.
  intros Hd Hst k w'. subst w'.
  change (put (eng := Mock.engine) s v) with
    (data_method (eng := Mock.engine) s readwrite (ReqPut v) (λ _, tt) PutFailed).
  rewrite (data_method_on_double w d) by done. simpl.
  pose proof (store_after_filing (host w) s v) as Hs. rewrite Hst in Hs. fold k in Hs.
  destruct (Mock.file_record (host w) s v) as [c m1]. simpl in *.
  change (count (eng := Mock.engine) s) with
    (data_method (eng := Mock.engine) s readonly ReqCount (λ r, r) CountFailed).
  change (getAll (eng := Mock.engine) s) with
    (data_method (eng := Mock.engine) s readonly ReqGetAll (λ r, r) GetAllFailed).
  rewrite !(data_method_on_double _ d) by done. simpl. rewrite Hs.
  split.
  - intros Hk. rewrite (map_set_absent k v st Hk). rewrite fmap_app, length_app. simpl.
    split; [done|]. do 4 f_equal. lia.
  - intros Hk. by rewrite (map_set_present_length k v st Hk).
Qed.

(** X9.  The double never reports a missing store.  For a store it holds
    no map for, [add] and [put] resolve all the same and the record is
    dropped: afterwards [get] of its key resolves with [undefined] and
    [count] with 0. *)
Theorem undeclared_store_on_double w d s v :
  db (this w) = Some d →
  Mock.mockStores (host w) !! s = None →
  let k := MockView.key_for (host w) s v in
  (add (eng := Mock.engine) s v w).1 = Ok tt
  ∧ (put (eng := Mock.engine) s v w).1 = Ok tt
  ∧ (get (eng := Mock.engine) s k (put (eng := Mock.engine) s v w).2).1
    = Ok (Mock.ResValue (Mock.JPrim Mock.PUndefined))
  ∧ (count (eng := Mock.engine) s (put (eng := Mock.engine) s v w).2).1
    = Ok (Mock.ResValue (Mock.JPrim (Mock.PNumber 0))).
Proof.
  intros Hd Hst k.
  change (add (eng := Mock.engine) s v) with
    (data_method (eng := Mock.engine) s readwrite (ReqAdd v) (λ _, tt) AddFailed).
  change (put (eng := Mock.engine) s v) with
    (data_method (eng := Mock.engine) s readwrite (ReqPut v) (λ _, tt) PutFailed).
  rewrite !(data_method_on_double w d) by done. simpl.
  pose proof (store_after_filing (host w) s v) as Hs. rewrite Hst in Hs.
  destruct (Mock.file_record (host w) s v) as [c m1] eqn:Hf. simpl in *.
  assert (∃ r, c = Succeeded r) as [r ->].
  { unfold Mock.file_record in Hf. destruct (Mock.record_key _ _ _) as [key drawn].
    injection Hf as <- _. eauto. }
  split; [done|]. split; [done|].
  change (get (eng := Mock.engine) s k) with
    (data_method (eng := Mock.engine) s readonly (ReqGet k) (λ r, r) GetFailed).
  change (count (eng := Mock.engine) s) with
    (data_method (eng := Mock.engine) s readonly ReqCount (λ r, r) CountFailed).
  rewrite !(data_method_on_double _ d) by done. simpl. by rewrite Hs.
Qed.

End OnTheDouble.

Section SchemaOnTheDouble.
Implicit Types (w : World Mock.engine) (m : Mock.MockState) (d : Mock.MockDb).

(** What [createStore] leaves on the double, for the proofs below. *)
Lemma createStore_leaves w d s o :
  db (this w) = Some d →
  let m := host w in
  let m' := host (createStore s o w).2 in
  (createStore s o w).1 = Ok tt
  ∧ s ∈ Mock.mockObjectStoreNames m'
  ∧ (s ∈ Mock.mockObjectStoreNames m → m' = m)
  ∧ (s ∉ Mock.mockObjectStoreNames m →
     Mock.storeOptions m' !! s
     = Some {| keyPath := o ≫= keyPath;
               autoIncrement := Some (default false (o ≫= autoIncrement)) |}
     ∧ Mock.mockStores m' !! s = Some []).
Proof.
  intros Hd m m'. subst m m'.
  pose proof (createStore_cases w s o) as Hc. rewrite Hd in Hc. simpl in Hc.
  unfold Mock.contains, Mock.createObjectStore in Hc.
  destruct (decide (s ∈ Mock.mockObjectStoreNames (host w))) as [Hin|Hout].
  - rewrite bool_decide_eq_true_2 in Hc by done. rewrite Hc. simpl. done.
  - rewrite !bool_decide_eq_false_2 in Hc by done. rewrite Hc. simpl.
    split; [done|]. split; [set_solver|]. split; [done|]. intros _.
    by rewrite !lookup_insert_eq.
Qed.

(** X10.  What [createStore] leaves on the double.  On an instance with a
    database reference it returns; the store is then known; a store that was
    already known keeps the options it had, whatever options this call
    gives; a new store gets the key path given, auto-increment off unless
    switched on, and no records. *)
Theorem createStore_on_double w d s o :
  db (this w) = Some d →
  let m := host w in
  let m' := host (createStore s o w).2 in
  (createStore s o w).1 = Ok tt
  ∧ s ∈ Mock.mockObjectStoreNames m'
  ∧ (s ∈ Mock.mockObjectStoreNames m → m' = m)
  ∧ (s ∉ Mock.mockObjectStoreNames m →
     Mock.storeOptions m' !! s
     = Some {| keyPath := o ≫= keyPath;
               autoIncrement := Some (default false (o ≫= autoIncrement)) |}
     ∧ Mock.mockStores m' !! s = Some []).
Proof. apply createStore_leaves. Qed.

(** Fetching the accessor of a store from the upgrade transaction of the
    double changes no index, and the accessor sees the indexes recorded. *)
Lemma accessor_on_double m s :
  let r := Mock.objectStore m Mock.mockUpgradeTransaction s in
  r.1 = inr (Mock.UpgradeStore s)
  ∧ (∀ i, Mock.indexContains r.2 (Mock.UpgradeStore s) i
          = inr (bool_decide (is_Some (MockView.index_info m s i))))
  ∧ (∀ s' i', MockView.index_info r.2 s' i' = MockView.index_info m s' i')
  ∧ Mock.mockObjectStoreNames r.2 = Mock.mockObjectStoreNames m.
Proof.
  unfold Mock.objectStore, Mock.indexContains, MockView.index_info. simpl.
  destruct (Mock.mockIndexes m !! s) as [ix|] eqn:Hix; simpl.
  - rewrite Hix. done.
  - rewrite lookup_insert_eq. simpl. split; [done|]. split.
    + intros i. by rewrite lookup_empty.
    + split; [|done]. intros s' i'. destruct (decide (s' = s)) as [->|Hne].
      * by rewrite lookup_insert_eq, Hix.
      * by rewrite lookup_insert_ne.
Qed.

(** Declaring an index the double has not recorded records it, and
    touches no other index. *)
Lemma new_index_on_double m s i kp u me :
  MockView.index_info m s i = None →
  let r := Mock.createIndex m (Mock.UpgradeStore s) i kp u me in
  r.1 = inr tt
  ∧ MockView.index_info r.2 s i
    = Some {| Mock.index_keyPath := kp; Mock.index_unique := u;
              Mock.index_multiEntry := me |}
  ∧ (∀ s' i', (s', i') ≠ (s, i) →
       MockView.index_info r.2 s' i' = MockView.index_info m s' i')
  ∧ Mock.mockObjectStoreNames r.2 = Mock.mockObjectStoreNames m.
Proof.
  unfold Mock.createIndex, MockView.index_info. intros Hnone. simpl.
  assert (default ∅ (Mock.mockIndexes m !! s) !! i = None) as Hi.
  { destruct (Mock.mockIndexes m !! s); simpl in *; [done|apply lookup_empty]. }
  rewrite bool_decide_eq_false_2 by (rewrite Hi; by intros [? ?]). simpl.
  rewrite lookup_insert_eq. simpl. rewrite lookup_insert_eq.
  split; [done|]. split; [done|]. split; [|done].
  intros s' i' Hne. destruct (decide (s' = s)) as [->|Hs'].
  - rewrite lookup_insert_eq. simpl. rewrite lookup_insert_ne by congruence.
    by destruct (Mock.mockIndexes m !! s).
  - by rewrite lookup_insert_ne.
Qed.

(** [createIndex] past its three checks, on any engine: the accessor is
    fetched, the index looked for, and declared if it is not there. *)
Lemma createIndex_in_upgrade {eng : Engine} (w : World eng) (d : DB eng) (t : TX eng)
    s i kp o :
  db (this w) = Some d →
  upgradeTransaction (this w) = Some t →
  objectStoreNames_contains eng (host w) d s = true →
  ((createIndex s i kp o w).1, host (createIndex s i kp o w).2) =
    match tx_objectStore eng (host w) t s with
    | (inl x, e1) => (Throw (EngineException x), e1)
    | (inr a, e1) =>
        match indexNames_contains eng e1 a i with
        | inl x => (Throw (EngineException x), e1)
        | inr true => (Ok tt, e1)
        | inr false =>
            match os_createIndex eng e1 a i kp (default false (o ≫= unique))
                    (default false (o ≫= multiEntry)) with
            | (inl x, e2) => (Throw (EngineException x), e2)
            | (inr _, e2) => (Ok tt, e2)
            end
        end
    end.
Proof.
  intros Hd Ht Hs. run_adapter. rewrite Hd. simpl. rewrite Hs. simpl. rewrite Ht. simpl.
  destruct (tx_objectStore eng (host w) t s) as [[x|a] e1]; simpl; [done|].
  destruct (indexNames_contains eng e1 a i) as [x|[]]; simpl; [done..|].
  by destruct (os_createIndex _ _ _ _ _ _ _) as [[x|[]] e2].
Qed.

(** What [createIndex] leaves on the double, for the proofs below. *)
Lemma createIndex_leaves w d s i kp o :
  db (this w) = Some d →
  upgradeTransaction (this w) = Some Mock.mockUpgradeTransaction →
  s ∈ Mock.mockObjectStoreNames (host w) →
  let m := host w in
  let m' := host (createIndex s i kp o w).2 in
  (createIndex s i kp o w).1 = Ok tt
  ∧ MockView.index_info m' s i
    = Some (default {| Mock.index_keyPath := kp;
                       Mock.index_unique := default false (o ≫= unique);
                       Mock.index_multiEntry := default false (o ≫= multiEntry) |}
              (MockView.index_info m s i))
  ∧ (∀ s' i', (s', i') ≠ (s, i) →
       MockView.index_info m' s' i' = MockView.index_info m s' i')
  ∧ Mock.mockObjectStoreNames m' = Mock.mockObjectStoreNames m.
Proof.
  intros Hd Ht Hs m m'. subst m m'.
  pose proof (createIndex_in_upgrade w d Mock.mockUpgradeTransaction s i kp o Hd Ht) as Hc.
  destruct (accessor_on_double (host w) s) as (Ha & Hsee & Hsame & Hnames).
  change (tx_objectStore Mock.engine) with Mock.objectStore in Hc.
  change (indexNames_contains Mock.engine) with Mock.indexContains in Hc.
  change (os_createIndex Mock.engine) with Mock.createIndex in Hc.
  destruct (Mock.objectStore (host w) Mock.mockUpgradeTransaction s) as [r m1].
  cbn [fst snd] in Ha, Hsee, Hsame, Hnames. subst r. rewrite Hsee in Hc.
  specialize (Hc ltac:(by apply bool_decide_eq_true_2)).
  destruct (MockView.index_info (host w) s i) as [info|] eqn:Hinfo.
  - rewrite bool_decide_eq_true_2 in Hc by done. injection Hc as -> ->.
    split; [done|]. split; [by rewrite Hsame, Hinfo|]. split; [|done].
    intros s' i' _. apply Hsame.
  - rewrite bool_decide_eq_false_2 in Hc by (by intros [? ?]).
    destruct (new_index_on_double m1 s i kp (default false (o ≫= unique))
                (default false (o ≫= multiEntry))) as (Hr & Hnew & Hother & Hn2).
    { by rewrite Hsame. }
    destruct (Mock.createIndex m1 _ _ _ _ _) as [r m2]. cbn [fst snd] in *. subst r.
    injection Hc as -> ->. split; [done|]. split; [done|]. split.
    + intros s' i' Hne. by rewrite Hother, Hsame.
    + by rewrite Hn2.
Qed.

(** X11.  What [createIndex] leaves on the double.  Inside an upgrade, on
    a store the database has, it returns; an index that was already recorded
    keeps what was recorded, whatever this call gives; a new index is
    recorded with the key path given and with [unique] and [multiEntry] off
    unless switched on; no other index of any store changes, and no store
    appears or disappears. *)
Theorem createIndex_on_double w d s i kp o :
  db (this w) = Some d →
  upgradeTransaction (this w) = Some Mock.mockUpgradeTransaction →
  s ∈ Mock.mockObjectStoreNames (host w) →
  let m := host w in
  let m' := host (createIndex s i kp o w).2 in
  (createIndex s i kp o w).1 = Ok tt
  ∧ MockView.index_info m' s i
    = Some (default {| Mock.index_keyPath := kp;
                       Mock.index_unique := default false (o ≫= unique);
                       Mock.index_multiEntry := default false (o ≫= multiEntry) |}
              (MockView.index_info m s i))
  ∧ (∀ s' i', (s', i') ≠ (s, i) →
       MockView.index_info m' s' i' = MockView.index_info m s' i')
  ∧ Mock.mockObjectStoreNames m' = Mock.mockObjectStoreNames m.
Proof. apply createIndex_leaves. Qed.

End SchemaOnTheDouble.

Section OpenOnTheDouble.
Implicit Types (c : Config Mock.engine) (o : OpenCall Mock.engine).

(** A success notification to a listening, pending open call resolves
    it and leaves the instance open on the database notified, with no
    upgrade transaction. *)
Lemma success_step c i o d :
  opens c !! i = Some o →
  listening o = true →
  settled o = None →
  let c' := step c (EvNotify i (NSuccess (eng := Mock.engine) d)) in
  (settled <$> opens c' !! i) = Some (Some (Ok tt))
  ∧ db (this (world c')) = Some d
  ∧ upgradeTransaction (this (world c')) = None.
Proof.
  intros Hl Hli Hs. simpl. rewrite Hl, Hli. simpl.
  rewrite list_lookup_insert_eq by (by eapply lookup_lt_Some).
  unfold settle. by rewrite Hs.
Qed.

(** An upgrade notification leaves the open call as it was: listening
    and not settled. *)
Lemma upgrade_step c i o d t :
  opens c !! i = Some o →
  opens (step c (EvNotify i (NUpgradeNeeded (eng := Mock.engine) d t))) !! i = Some o.
Proof.
  intros Hl. simpl. rewrite Hl. destruct (listening o); [|done]. simpl.
  destruct (onupgradeneeded _ _ _ _) as [[[]|e] w']; simpl;
    by rewrite list_lookup_insert_eq by (by eapply lookup_lt_Some).
Qed.

(** X12.  On the double an [open] always resolves.  Whatever the state of
    the double, the name, the version and the callback, a throwing callback
    included: once the notifications the double schedules for the call
    have been delivered, the promise is resolved, the instance holds the
    database of the call, and no upgrade transaction is held. *)
Theorem open_on_double_resolves c name version callback :
  indexedDB_in_self (world c) = true →
  let i := length (opens c) in
  let c' := run c (EvOpen name version callback
                   :: (EvNotify i <$> Mock.notifications (host (world c)) name version)) in
  (settled <$> opens c' !! i) = Some (Some (Ok tt))
  ∧ db (this (world c')) = Some (MockView.database name version)
  ∧ upgradeTransaction (this (world c')) = None.
Proof.
  intros Hsup i c'. subst c'.
  set (o := {| upgradeCallback := callback; listening := true; settled := None |}
            : OpenCall Mock.engine).
  set (c1 := step c (EvOpen name version callback)).
  assert (opens c1 !! i = Some o) as Hl.
  { subst c1 i o. unfold step. run_adapter. rewrite Hsup. simpl.
    by rewrite list_lookup_middle. }
  unfold Mock.notifications, run.
  change (MockView.database name version) with
    {| Mock.db_name := name;
       Mock.db_version := if decide (version = 0) then 1 else version |}.
  destruct (bool_decide (version ≠ 0 ∧ 1 < version)
            || bool_decide (size (Mock.mockObjectStoreNames (host (world c))) = 0%nat));
    cbn [fmap list_fmap app foldl]; fold c1.
  - apply (success_step _ i o); [|done..]. by apply upgrade_step.
  - by apply (success_step _ i o).
Qed.

End OpenOnTheDouble.

Section ScriptsOnTheDouble.
Implicit Types (w : World Mock.engine) (m : Mock.MockState)
  (op : Operation Mock.engine) (ops : list (Operation Mock.engine)).

Lemma extends_refl m : MockView.extends m m.
Proof. by split. Qed.

Lemma extends_trans m1 m2 m3 :
  MockView.extends m1 m2 → MockView.extends m2 m3 → MockView.extends m1 m3.
Proof. intros [H1 H2] [H3 H4]. split; [set_solver|]. intros s i H. by apply H4, H2. Qed.

Lemma declared_extends m m' op :
  MockView.extends m m' → MockView.declared m op → MockView.declared m' op.
Proof.
  intros [Hn Hi]. destruct op; simpl; try done; [set_solver|].
  intros [Hs Hx]. split; [set_solver|]. by apply Hi.
Qed.

(** [createIndex] with the upgrade transaction of the double, case by
    case on whether the index is recorded. *)
Lemma createIndex_upgrade_on_double w d s i kp o :
  db (this w) = Some d →
  upgradeTransaction (this w) = Some Mock.mockUpgradeTransaction →
  s ∈ Mock.mockObjectStoreNames (host w) →
  (createIndex s i kp o w).1 = Ok tt
  ∧ MockView.extends (host w) (host (createIndex s i kp o w).2)
  ∧ is_Some (MockView.index_info (host (createIndex s i kp o w).2) s i)
  ∧ (is_Some (MockView.index_info (host w) s i) →
     host (createIndex s i kp o w).2 = host w).
Proof.
  intros Hd Ht Hs.
  destruct (createIndex_leaves w d s i kp o Hd Ht Hs) as (Hr & Hi & Hother & Hn).
  cbn zeta in *. split; [done|]. split; [|split].
  - split; [by rewrite Hn|]. intros s' i' Hsome.
    destruct (decide ((s', i') = (s, i))) as [[= -> ->]|Hne].
    + by rewrite Hi.
    + by rewrite Hother.
  - by rewrite Hi.
  - intros [info Hinfo].
    pose proof (createIndex_in_upgrade w d Mock.mockUpgradeTransaction s i kp o Hd Ht) as Hc.
    destruct (accessor_on_double (host w) s) as (Ha & Hsee & Hsame & _).
    change (tx_objectStore Mock.engine) with Mock.objectStore in Hc.
    change (indexNames_contains Mock.engine) with Mock.indexContains in Hc.
    assert (Mock.objectStore (host w) Mock.mockUpgradeTransaction s
            = (inr (Mock.UpgradeStore s), host w)) as Hfetch.
    { unfold Mock.objectStore. unfold MockView.index_info in Hinfo.
      by destruct (Mock.mockIndexes (host w) !! s). }
    rewrite Hfetch in Hc, Hsee. cbn [fst snd] in Hsee. rewrite Hsee in Hc.
    rewrite bool_decide_eq_true_2 in Hc by (by rewrite Hinfo).
    specialize (Hc ltac:(by apply bool_decide_eq_true_2)). by injection Hc.
Qed.

(** A schema call on the double only adds to what it has recorded. *)
Lemma schema_call_extends w op :
  is_schema op = true → MockView.extends (host w) (host (invoke op w).2).
Proof.
  destruct op as [s o|s i kp o| | | | | | |]; try done; intros _; cbn [invoke];
    unfold void, bind.
  - pose proof (createStore_cases w s o) as Hc.
    destruct (db (this w)) as [d|] eqn:Hd; [|rewrite Hc; apply extends_refl].
    destruct (createStore_leaves w d s o Hd) as (_ & Hin & Hold & _).
    cbn zeta in *.
    destruct (decide (s ∈ Mock.mockObjectStoreNames (host w))) as [Hs|Hs].
    + destruct (createStore s o w) as [[[]|e] w']; simpl in *;
        rewrite (Hold Hs); apply extends_refl.
    + simpl in Hc. unfold Mock.contains, Mock.createObjectStore in Hc.
      rewrite !bool_decide_eq_false_2 in Hc by done. rewrite Hc. simpl.
      split; simpl; [set_solver|done].
  - pose proof (createIndex_checks w s i kp o) as Hc.
    destruct (db (this w)) as [d|] eqn:Hd; [|rewrite Hc; apply extends_refl].
    cbn zeta in Hc. change (objectStoreNames_contains Mock.engine) with Mock.contains in Hc.
    unfold Mock.contains in Hc.
    destruct (decide (s ∈ Mock.mockObjectStoreNames (host w))) as [Hs|Hs].
    2:{ rewrite bool_decide_eq_false_2 in Hc by done. rewrite Hc. apply extends_refl. }
    rewrite bool_decide_eq_true_2 in Hc by done.
    destruct (upgradeTransaction (this w)) as [[|names mode]|] eqn:Ht.
    + destruct (createIndex_upgrade_on_double w d s i kp o Hd Ht Hs) as (_ & He & _).
      by destruct (createIndex s i kp o w) as [[[]|e] w'].
    + pose proof (createIndex_in_upgrade w d (Mock.MockTransaction names mode)
                    s i kp o Hd Ht) as Hi.
      change (objectStoreNames_contains Mock.engine) with Mock.contains in Hi.
      unfold Mock.contains in Hi.
      specialize (Hi ltac:(by apply bool_decide_eq_true_2)). simpl in Hi.
      injection Hi as Hr Hh.
      destruct (createIndex s i kp o w) as [[[]|e] w']; simpl in *;
        rewrite Hh; apply extends_refl.
    + rewrite Hc. apply extends_refl.
Qed.

(** A schema call that returned has passed the checks and left what it
    names recorded. *)
Lemma schema_call_declares w op :
  is_schema op = true →
  (invoke op w).1 = Ok None →
  MockView.declared (host (invoke op w).2) op
  ∧ MockView.ready (this w) op
  ∧ this (invoke op w).2 = this w.
Proof.
  intros Hop Hr. split; [|split; [|apply invoke_this]].
  - destruct op as [s o|s i kp o| | | | | | |]; try done; cbn [invoke] in *;
      unfold void, bind in *.
    + pose proof (createStore_cases w s o) as Hc.
      destruct (db (this w)) as [d|] eqn:Hd; [|by rewrite Hc in Hr].
      destruct (createStore_leaves w d s o Hd) as (_ & Hin & _).
      cbn zeta in Hin. by destruct (createStore s o w) as [[[]|e] w'].
    + pose proof (createIndex_checks w s i kp o) as Hc.
      destruct (db (this w)) as [d|] eqn:Hd; [|by rewrite Hc in Hr].
      cbn zeta in Hc. change (objectStoreNames_contains Mock.engine) with Mock.contains in Hc.
      unfold Mock.contains in Hc.
      destruct (decide (s ∈ Mock.mockObjectStoreNames (host w))) as [Hs|Hs].
      2:{ rewrite bool_decide_eq_false_2 in Hc by done. by rewrite Hc in Hr. }
      rewrite bool_decide_eq_true_2 in Hc by done.
      destruct (upgradeTransaction (this w)) as [[|names mode]|] eqn:Ht.
      * destruct (createIndex_upgrade_on_double w d s i kp o Hd Ht Hs)
          as (_ & [Hn _] & Hsome & _).
        destruct (createIndex s i kp o w) as [[[]|e] w']; simpl in *; [|done].
        split; [set_solver|done].
      * pose proof (createIndex_in_upgrade w d (Mock.MockTransaction names mode)
                      s i kp o Hd Ht) as Hi.
        change (objectStoreNames_contains Mock.engine) with Mock.contains in Hi.
        unfold Mock.contains in Hi.
        specialize (Hi ltac:(by apply bool_decide_eq_true_2)). simpl in Hi.
        injection Hi as Hres _.
        by destruct (createIndex s i kp o w) as [[[]|e] w'].
      * by rewrite Hc in Hr.
  - destruct op as [s o|s i kp o| | | | | | |]; try done; cbn [invoke] in *;
      unfold void, bind in *.
    + pose proof (createStore_cases w s o) as Hc.
      destruct (db (this w)) as [d|] eqn:Hd; [by eexists|by rewrite Hc in Hr].
    + pose proof (createIndex_checks w s i kp o) as Hc.
      destruct (db (this w)) as [d|] eqn:Hd; [|by rewrite Hc in Hr].
      split; [by eexists|].
      cbn zeta in Hc. change (objectStoreNames_contains Mock.engine) with Mock.contains in Hc.
      unfold Mock.contains in Hc.
      destruct (decide (s ∈ Mock.mockObjectStoreNames (host w))) as [Hs|Hs].
      2:{ rewrite bool_decide_eq_false_2 in Hc by done. by rewrite Hc in Hr. }
      rewrite bool_decide_eq_true_2 in Hc by done.
      destruct (upgradeTransaction (this w)) as [[|names mode]|] eqn:Ht; [done| |].
      * pose proof (createIndex_in_upgrade w d (Mock.MockTransaction names mode)
                      s i kp o Hd Ht) as Hi.
        change (objectStoreNames_contains Mock.engine) with Mock.contains in Hi.
        unfold Mock.contains in Hi.
        specialize (Hi ltac:(by apply bool_decide_eq_true_2)). simpl in Hi.
        injection Hi as Hres _.
        by destruct (createIndex s i kp o w) as [[[]|e] w'].
      * by rewrite Hc in Hr.
Qed.

(** A schema call with nothing left to declare returns and leaves the
    double as it is. *)
Lemma declared_call_is_noop w op :
  MockView.declared (host w) op →
  MockView.ready (this w) op →
  (invoke op w).1 = Ok None
  ∧ host (invoke op w).2 = host w
  ∧ this (invoke op w).2 = this w.
Proof.
  intros Hdecl Hready. split; [|split; [|apply invoke_this]].
  - destruct op as [s o|s i kp o| | | | | | |]; try done; cbn [invoke];
      unfold void, bind; simpl in Hdecl, Hready.
    + destruct Hready as [d Hd].
      destruct (createStore_leaves w d s o Hd) as (Hr & _).
      by destruct (createStore s o w) as [[[]|e] w'].
    + destruct Hready as [[d Hd] Ht]. destruct Hdecl as [Hs Hi].
      destruct (createIndex_upgrade_on_double w d s i kp o Hd Ht Hs) as (Hr & _).
      by destruct (createIndex s i kp o w) as [[[]|e] w'].
  - destruct op as [s o|s i kp o| | | | | | |]; try done; cbn [invoke];
      unfold void, bind; simpl in Hdecl, Hready.
    + destruct Hready as [d Hd].
      destruct (createStore_leaves w d s o Hd) as (_ & _ & Hold & _).
      cbn zeta in Hold. specialize (Hold Hdecl).
      by destruct (createStore s o w) as [[[]|e] w'].
    + destruct Hready as [[d Hd] Ht]. destruct Hdecl as [Hs Hi].
      destruct (createIndex_upgrade_on_double w d s i kp o Hd Ht Hs) as (_ & _ & _ & Hold).
      specialize (Hold Hi).
      by destruct (createIndex s i kp o w) as [[[]|e] w'].
Qed.

Lemma run_script_cons op ops w :
  run_script (op :: ops) w =
    match invoke op w with
    | (Ok _, w') => run_script ops w'
    | (Throw e, w') => (Throw e, w')
    end.
Proof. done. Qed.

Lemma first_run ops w :
  forallb is_schema ops = true →
  (run_script ops w).1 = Ok tt →
  MockView.extends (host w) (host (run_script ops w).2)
  ∧ this (run_script ops w).2 = this w
  ∧ Forall (λ op, MockView.declared (host (run_script ops w).2) op
                  ∧ MockView.ready (this w) op) ops.
Proof.
  revert w. induction ops as [|op ops IH]; intros w Hs Hr.
  - split; [apply extends_refl|]. split; [done|]. by apply Forall_nil.
  - simpl in Hs. apply andb_prop in Hs as [Hop Hs].
    rewrite run_script_cons in Hr |- *.
    pose proof (schema_call_extends w op Hop) as Hext.
    pose proof (schema_call_declares w op Hop) as Hdecl.
    destruct (invoke op w) as [[a|e] w'] eqn:Hinv; simpl in *; [|done].
    assert (a = None) as ->.
    { destruct op; try done; cbn [invoke] in Hinv; unfold void, bind in Hinv.
      - destruct (createStore _ _ w) as [[[]|?] ?]; unfold ret in Hinv; by simplify_eq.
      - destruct (createIndex _ _ _ _ w) as [[[]|?] ?]; unfold ret in Hinv; by simplify_eq. }
    destruct (Hdecl eq_refl) as (Hd & Hrd & Hthis).
    destruct (IH w' Hs Hr) as (Hext' & Hthis' & Hall).
    split; [by eapply extends_trans|]. split; [by rewrite Hthis'|].
    apply Forall_cons. split.
    + split; [by eapply declared_extends|done].
    + eapply Forall_impl; [exact Hall|]. intros op' [H1 H2]. split; [done|].
      by rewrite <- Hthis.
Qed.

Lemma second_run ops w :
  Forall (λ op, MockView.declared (host w) op ∧ MockView.ready (this w) op) ops →
  (run_script ops w).1 = Ok tt
  ∧ host (run_script ops w).2 = host w
  ∧ this (run_script ops w).2 = this w.
Proof.
  revert w. induction ops as [|op ops IH]; intros w Hall; [done|].
  apply Forall_cons in Hall as [[Hd Hr] Hall].
  rewrite run_script_cons.
  destruct (declared_call_is_noop w op Hd Hr) as (Hres & Hh & Ht).
  destruct (invoke op w) as [[a|e] w'] eqn:Hinv; simpl in *; [|done].
  destruct (IH w') as (Hres' & Hh' & Ht').
  { eapply Forall_impl; [exact Hall|]. intros op' [H1 H2]. by rewrite Hh, Ht. }
  split; [done|]. split; [by rewrite Hh'|by rewrite Ht'].
Qed.

(** X13.  An upgrade callback made of [createStore] and [createIndex]
    calls can be run again on the double.  If such a sequence of calls has
    run to its end without an exception, running the same sequence again
    from there also runs to its end, and leaves the double exactly as the
    first run left it. *)
Theorem declarations_rerun_on_double w ops :
  forallb is_schema ops = true →
  (run_script ops w).1 = Ok tt →
  let w1 := (run_script ops w).2 in
  (run_script ops w1).1 = Ok tt
  ∧ host (run_script ops w1).2 = host w1.
Proof.
  intros Hs Hr w1.
  destruct (first_run ops w Hs Hr) as (_ & Hthis & Hall). fold w1 in Hthis, Hall.
  destruct (second_run ops w1) as (H1 & H2 & _); [|done].
  eapply Forall_impl; [exact Hall|]. intros op [Hd Hrd]. split; [done|].
  by rewrite Hthis.
Qed.

End ScriptsOnTheDouble.

(** ** The further statements at work on the scenarios *)

Section FurtherScenarios.
Import Scenario.

(** Before any open, [add] is refused and nothing has been called. *)
Lemma not_open_touches_nothing_witness :
  invoke (OpAdd (eng := Mock.engine) "users" john) (world constructed)
  = (Throw NotOpen, world constructed).
Proof. apply not_open_touches_nothing. reflexivity. Defined.

(** [get] of a key the store does not hold resolves with [undefined]. *)
Lemma data_operation_settles_witness :
  (invoke (OpGet (eng := Mock.engine) "users" (Mock.PString "1")) (world opened)).1
  = Ok (Some (Mock.ResValue (Mock.JPrim Mock.PUndefined))).
Proof.
  rewrite (data_operation_settles (world opened) test_db
             (OpGet (eng := Mock.engine) "users" (Mock.PString "1"))
             "users" readonly (ReqGet (Mock.PString "1")));
    vm_compute; reflexivity.
Defined.

(** After the open of the suite no handler has thrown and no upgrade
    transaction is held. *)
Lemma no_upgrade_transaction_between_events_witness :
  upgradeTransaction (this (world opened)) = None.
Proof.
  apply (no_upgrade_transaction_between_events (eng := Mock.engine)
           (Mock.empty rnd) true (open_with (Some declare_users))).
  vm_compute. reflexivity.
Defined.

(** John is added twice under key 1 and read back. *)
Lemma add_then_get_on_double_witness :
  (add (eng := Mock.engine) "users" john with_john).1 = Ok tt
  ∧ (get (eng := Mock.engine) "users" (MockView.key_for (host with_john) "users" john)
       (add (eng := Mock.engine) "users" john with_john).2).1
    = Ok (Mock.ResValue john).
Proof.
  apply (add_then_get_on_double with_john test_db "users" john);
    [vm_compute; reflexivity|].
  exists [(Mock.PString "1", john)]. vm_compute. reflexivity.
Defined.

(** A key that is not there is deleted without an error. *)
Lemma delete_then_get_on_double_witness :
  (delete (eng := Mock.engine) "users" (Mock.PString "9") with_john).1 = Ok tt
  ∧ (get (eng := Mock.engine) "users" (Mock.PString "9")
       (delete (eng := Mock.engine) "users" (Mock.PString "9") with_john).2).1
    = Ok (Mock.ResValue (Mock.JPrim Mock.PUndefined)).
Proof.
  apply (delete_then_get_on_double with_john test_db). vm_compute. reflexivity.
Defined.

(** The store with John in it is cleared. *)
Lemma clear_empties_on_double_witness :
  (count (eng := Mock.engine) "users" (clear (eng := Mock.engine) "users" with_john).2).1
  = Ok (Mock.ResValue (Mock.JPrim (Mock.PNumber 0))).
Proof.
  destruct (clear_empties_on_double with_john test_db "users" (Mock.PString "1"))
    as (_ & H & _); [vm_compute; reflexivity|].
  exact H.
Defined.

(** Mary, under the new key 2, comes after John. *)
Lemma put_grows_store_on_double_witness :
  (getAll (eng := Mock.engine) "users" (put (eng := Mock.engine) "users" mary with_john).2).1
  = Ok (Mock.ResArray [john; mary]).
Proof.
  destruct (put_grows_store_on_double with_john test_db "users" mary
              [(Mock.PString "1", john)]) as [Hnew _]; [vm_compute; reflexivity ..|].
  destruct Hnew as [H _]; [vm_compute; reflexivity|]. exact H.
Defined.

(** [put] into [orders], which was never declared, resolves. *)
Lemma undeclared_store_on_double_witness :
  (put (eng := Mock.engine) "orders" john (world opened)).1 = Ok tt
  ∧ (count (eng := Mock.engine) "orders"
       (put (eng := Mock.engine) "orders" john (world opened)).2).1
    = Ok (Mock.ResValue (Mock.JPrim (Mock.PNumber 0))).
Proof.
  destruct (undeclared_store_on_double (world opened) test_db "orders" john)
    as (_ & H1 & _ & H2); [vm_compute; reflexivity ..|].
  split; [exact H1|exact H2].
Defined.

(** [users] declared by [id] at the start of an upgrade. *)
Lemma createStore_on_double_witness :
  (createStore "users" by_id upgrade_started).1 = Ok tt
  ∧ Mock.storeOptions (host (createStore "users" by_id upgrade_started).2) !! "users"
    = Some {| keyPath := Some "id"; autoIncrement := Some false |}.
Proof.
  destruct (createStore_on_double upgrade_started test_db "users" by_id)
    as (H1 & _ & _ & H2); [vm_compute; reflexivity|].
  split; [exact H1|]. apply H2. vm_compute. discriminate.
Defined.

(** The unique index on [email], declared in the upgrade. *)
Lemma createIndex_on_double_witness :
  MockView.index_info
    (host (createIndex "users" "email" "email" unique_index in_upgrade).2) "users" "email"
  = Some {| Mock.index_keyPath := "email"; Mock.index_unique := true;
            Mock.index_multiEntry := false |}.
Proof.
  destruct (createIndex_on_double in_upgrade test_db "users" "email" "email" unique_index)
    as (_ & H & _).
  - vm_compute. reflexivity.
  - vm_compute. reflexivity.
  - apply (bool_decide_unpack _). vm_compute. exact I.
  - exact H.
Defined.

(** The open whose callback throws resolves all the same on the double,
    and ends with no upgrade transaction. *)
Lemma open_on_double_resolves_witness :
  let c := run constructed (open_with (Some declare_then_throw)) in
  (settled <$> opens c !! 0%nat) = Some (Some (Ok tt))
  ∧ upgradeTransaction (this (world c)) = None.
Proof.
  destruct (open_on_double_resolves constructed "test-db" 1 (Some declare_then_throw))
    as (H1 & _ & H3); [reflexivity|].
  split; [exact H1|exact H3].
Defined.

(** The upgrade callback of the demo page, run twice in one upgrade. *)
Lemma declarations_rerun_on_double_witness :
  (run_script Demo.upgrade (run_script Demo.upgrade upgrade_started).2).1 = Ok tt
  ∧ host (run_script Demo.upgrade (run_script Demo.upgrade upgrade_started).2).2
    = host (run_script Demo.upgrade upgrade_started).2.
Proof.
  apply (declarations_rerun_on_double upgrade_started Demo.upgrade);
    vm_compute; reflexivity.
Defined.

End FurtherScenarios.
